(** * Verification of the news bot's ranking, ledger and publication engine

    A shallow embedding of the scoring, selection, ledger and scheduling
    code of [src/news_bot] and [src/config.py], followed by the theorems
    that settle the properties stated about it.

    Conventions of the embedding.
    - A Python [str] is a [string] holding its UTF-8 encoding.  Substring
      search and counting on the bytes agree with Python's on code points
      (UTF-8 is self-synchronising); [len] and slicing count code points
      and are written [py_len] and [py_take].
    - A Python [float] is an exact rational ([Q]); the one place where
      binary rounding decides an outcome, [int(num_to_select * 0.7)], is
      computed on the binary64 values.
    - A [datetime] is a number of seconds ([Z]) since a local midnight.
    - Collaborators outside the repository ([str.lower], the sentiment
      analyser, the translator, the regular-expression clean-up) are the
      fields of the class [Externals].
    - Random draws, feed contents and delivery results are inputs. *)

From Stdlib Require Import ZArith QArith Qminmax Qround Lqa Lia.
From Stdlib Require Import List String Ascii Bool Permutation Sorted.
Import ListNotations.

Open Scope string_scope.
Open Scope Z_scope.

(* ================================================================== *)
(** * Part I: the embedding                                            *)
(* ================================================================== *)

(** ** Python string operations on UTF-8 strings *)

(** [needle] is a prefix of [hay] ([hay.startswith(needle)]). *)
Fixpoint starts_with (needle hay : string) : bool :=
  match needle, hay with
  | EmptyString, _ => true
  | String _ _, EmptyString => false
  | String a n', String b h' => Ascii.eqb a b && starts_with n' h'
  end.

(** [needle in hay]. *)
Fixpoint contains (needle hay : string) : bool :=
  starts_with needle hay ||
  match hay with
  | EmptyString => false
  | String _ h' => contains needle h'
  end.

(** A UTF-8 continuation byte, [10xxxxxx]. *)
Definition is_continuation (c : ascii) : bool :=
  let n := nat_of_ascii c in (128 <=? n)%nat && (n <? 192)%nat.

(** [len(s)]: the number of code points. *)
Fixpoint py_len (s : string) : Z :=
  match s with
  | EmptyString => 0
  | String c s' => (if is_continuation c then 0 else 1) + py_len s'
  end.

(** [s[:n]] for [n >= 0]: the first [n] code points. *)
Fixpoint py_take (n : nat) (s : string) : string :=
  match s with
  | EmptyString => EmptyString
  | String c s' =>
      if is_continuation c then String c (py_take n s')
      else match n with
           | O => EmptyString
           | S k => String c (py_take k s')
           end
  end.

(** The scan of [hay.count(needle)] for a non-empty [needle]: occurrences
    are counted left to right without overlap; [skip] is the number of
    bytes of the last match still to be passed over. *)
Fixpoint count_from (needle : string) (skip : nat) (hay : string) : Z :=
  match hay with
  | EmptyString => 0
  | String _ h' =>
      match skip with
      | S k => count_from needle k h'
      | O => if starts_with needle hay
             then 1 + count_from needle (String.length needle - 1) h'
             else count_from needle 0 h'
      end
  end.

(** [hay.count(needle)]; the empty string occurs [len(hay) + 1] times. *)
Definition py_count (hay needle : string) : Z :=
  match needle with
  | EmptyString => py_len hay + 1
  | String _ _ => count_from needle 0 hay
  end.

(** [s.split(',')]. *)
Fixpoint split_comma (s : string) : list string :=
  match s with
  | EmptyString => [EmptyString]
  | String c s' =>
      let r := split_comma s' in
      if Ascii.eqb c "," then EmptyString :: r
      else match r with
           | p :: ps => String c p :: ps
           | [] => [String c EmptyString]
           end
  end.

(** [s[:s.rfind(' ')]] when [s] has a space, [None] when [rfind] is -1. *)
Fixpoint before_last_space (s : string) : option string :=
  match s with
  | EmptyString => None
  | String c s' =>
      match before_last_space s' with
      | Some p => Some (String c p)
      | None => if Ascii.eqb c " " then Some EmptyString else None
      end
  end.

(** [any(f(x) for x in l)] is [existsb f l]; membership [x in l] on a list
    of strings: *)
Definition str_in (x : string) (l : list string) : bool :=
  existsb (String.eqb x) l.

(** ** Configuration ([src/config.py]) *)

Definition ARTICLES_PER_FEED : nat := 10.
Definition PUBLISH_INTERVAL : Z := 1.
Definition MIN_PUBLICATION_INTERVAL : Z := 3.
Definition MAX_PUBLICATIONS_PER_HOUR : Z := 20.
Definition MIN_INTEREST_SCORE : Q := 1.5.
Definition PUBLICATION_DELAY_INCREASE : Z := 30.
Definition SUMMARY_LENGTH : nat := 200.
Definition TOP_ARTICLES_PERCENTAGE : Q := 0.7.

Definition BREAKING_NEWS_KEYWORDS : list string :=
  ["breaking"; "срочно"; "just announced"; "world first"; "revolutionary";
    "game-changing"; "major acquisition"; "critical vulnerability"].

Definition PRIORITY_SOURCES : list string :=
  ["techcrunch.com"; "wired.com"; "theverge.com";
    "artificialintelligence-news.com"].

Definition PRIORITY_CATEGORIES : list string :=
  ["инновации"; "научные_публикации"; "ии_и_нейросети"; "кибербезопасность";
    "робототехника"; "мобильные_устройства"].

Definition BLACKLIST_KEYWORDS : list string :=
  ["скидка"; "распродажа"; "Prime Day"; "Black Friday"; "Cyber Monday";
    "сэкономить"; "дешевле"; "акция"; "уценка"; "бесплатно"; "купить";
    "продажа"; "цена снижена"; "специальное предложение"; "скидок";
    "выгодная цена"; "выгодное предложение"; "экономия"].

Definition category_weights : list (string * Q) :=
  [("технологии", 2.0%Q);
   ("инновации", 2.2%Q);
   ("научный_прорыв", 2.1%Q);
   ("ии_и_нейросети", 2.5%Q);
   ("блокчейн", 1.5%Q);
   ("кибербезопасность", 2.0%Q);
   ("робототехника", 2.2%Q);
   ("vr_ar", 1.8%Q);
   ("интернет_вещей", 1.7%Q);
   ("5g", 1.8%Q);
   ("биотехнологии", 1.9%Q);
   ("нанотехнологии", 1.8%Q);
   ("зеленые_технологии", 1.7%Q);
   ("космос", 2.1%Q);
   ("стартапы", 1.5%Q);
   ("инвестиции", 1.3%Q);
   ("патенты", 1.4%Q);
   ("научные_публикации", 1.9%Q);
   ("энергетика", 1.6%Q);
   ("медицина", 1.7%Q);
   ("транспорт", 1.5%Q);
   ("образование", 1.4%Q);
   ("финтех", 1.5%Q);
   ("криптовалюты", 1.4%Q);
   ("геймификация", 1.3%Q);
   ("мобильные_устройства", 1.7%Q)].

Definition category_keywords : list (string * list string) :=
  [("технологии",
    ["технология"; "технологический"; "tech"; "technology"; "hardware";
      "software"; "гаджет"; "девайс"; "цифровой"; "электроника"]);
   ("инновации",
    ["инновация"; "инновационный"; "innovation"; "новшество"; "прорыв";
      "революционный"; "передовой"; "новаторский"; "pioneering"]);
   ("научный_прорыв",
    ["breakthrough"; "discovery"; "прорыв"; "научный"; "эксперимент";
      "гипотеза"; "теория"; "феномен"; "закономерность"; "scientific"]);
   ("ии_и_нейросети",
    ["искусственный интеллект"; "artificial intelligence"; "AI assistant";
      "AI safety"; "AI system"; "AI algorithm"; "AI-powered"; "AI-driven";
      "нейросеть"; "machine learning"; "deep learning"; "neural network";
      "нейронная сеть"; "машинное обучение"; "глубокое обучение";
      "чат-бот AI"; "AI image recognition"; "AI распознавание образов";
      "AI модель"; "AI model"]);
   ("блокчейн",
    ["blockchain"; "блокчейн"; "distributed ledger"; "smart contract";
      "криптография"; "децентрализация"; "токен"; "майнинг"; "хеширование";
      "консенсус"; "распределенный реестр"; "умный контракт"]);
   ("кибербезопасность",
    ["cybersecurity"; "кибербезопасность"; "hacking"; "encryption";
      "firewall"; "защита данных"; "информационная безопасность";
      "антивирус"; "шифрование"; "брандмауэр"; "уязвимость"; "киберугроза"]);
   ("робототехника",
    ["robotics"; "робототехника"; "robot"; "робот"; "механизация"]);
   ("vr_ar",
    ["virtual reality"; "виртуальная реальность"; "augmented reality";
      "дополненная реальность"; "mixed reality"; "смешанная реальность";
      "иммерсивные технологии"]);
   ("интернет_вещей",
    ["iot"; "internet of things"; "интернет вещей"; "smart home";
      "умный дом"; "connected devices"; "подключенные устройства"; "сенсоры";
      "датчики"; "автоматизация"; "m2m"; "machine-to-machine"]);
   ("связь_и_5g",
    ["5g"; "5джи"; "network"; "connectivity"; "wireless"; "мобильная связь";
      "сеть пятого поколения"; "высокоскоростной интернет";
      "беспроводные технологии"; "телекоммуникации"; "спектр частот";
      "low latency"]);
   ("биотехнологии",
    ["biotech"; "биотехнологии"; "genetic"; "genome"; "биоинженерия";
      "генная инженерия"; "клонирование"; "стволовые клетки";
      "биоинформатика"; "секвенирование"; "генетически модифицированный";
      "биомедицина"]);
   ("нанотехнологии",
    ["nanotech"; "нанотехнологии"; "nanoscale"; "наночастицы";
      "наноматериалы"; "нанороботы"; "наноэлектроника"; "нанотрубки";
      "наноструктуры"; "квантовые точки"; "нанолитография"; "наномедицина"]);
   ("зеленые_технологии",
    ["green tech"; "зеленые технологии"; "pollution"; "renewable";
      "возобновляемые источники"; "sustainability"; "устойчивое развитие";
      "эко"; "чистая энергия"; "экологичный"; "переработка";
      "энергоэффективность"; "carbon footprint"]);
   ("космос",
    ["space"; "космос"; "спутник"; "марс"; "луна"; "астрономия";
      "космонавтика"; "ракета"; "орбита"; "галактика"; "космический корабль";
      "телескоп"]);
   ("стартапы",
    ["startup"; "стартап"; "venture"; "венчурный"; "entrepreneur";
      "предприниматель"; "инновационный бизнес"; "масштабирование";
      "акселератор"; "инкубатор"; "единорог"; "питч"]);
   ("инвестиции",
    ["investment"; "инвестиции"; "funding"; "финансирование";
      "venture capital"; "венчурный капитал"; "angel investor";
      "бизнес-ангел"; "crowdfunding"; "краудфандинг"; "ipo";
      "первичное размещение"]);
   ("патенты",
    ["patent"; "патент"; "intellectual property";
      "интеллектуальная собственность"; "invention"; "изобретение";
      "trademark"; "торговая марка"; "copyright"; "авторское право";
      "лицензирование"; "патентование"]);
   ("научные_публикации",
    ["research paper"; "научная статья"; "journal"; "научный журнал";
      "scientific article"; "научная публикация"; "peer review";
      "рецензирование"; "citation"; "цитирование"; "impact factor";
      "индекс цитирования"]);
   ("энергетика",
    ["energy"; "энергетика"; "power"; "электроэнергия"; "electricity";
      "электричество"; "nuclear"; "ядерная энергия"; "solar";
      "солнечная энергия"; "wind power"; "ветроэнергетика"]);
   ("медицина",
    ["medicine"; "медицина"; "health"; "здравоохранение"; "symptom";
      "pharmaceutical"; "фармацевтика"; "therapy"; "терапия"; "diagnosis";
      "диагностика"; "vaccine"; "вакцина"; "clinical trial";
      "клинические испытания"]);
   ("транспорт",
    ["transport"; "транспорт"; "бензиновый мотор"; "vehicle";
      "транспортное средство"; "autonomous"; "беспилотный"; "electric car";
      "электромобиль"; "hyperloop"; "гиперлуп"; "smart city"; "умный город";
      "logistics"; "логистика"]);
   ("образование",
    ["education"; "образование"; "learning"; "обучение"; "school"; "школа";
      "university"; "университет"; "e-learning"; "дистанционное обучение";
      "mooc"; "онлайн-курсы"; "edtech"; "образовательные технологии"]);
   ("финтех",
    ["fintech"; "финтех"; "banking"; "банкинг"; "payment"; "платежи";
      "financial technology"; "финансовые технологии"; "digital wallet";
      "электронный кошелек"; "mobile banking"; "мобильный банкинг";
      "insurtech"; "страховые технологии"]);
   ("криптовалюты",
    ["crypto"; "крипто"; "bitcoin"; "биткоин"; "ethereum"; "эфириум";
      "blockchain"; "блокчейн"; "mining"; "майнинг"; "wallet"; "кошелек";
      "exchange"; "биржа"; "token"; "токен"]);
   ("геймификация",
    ["gamification"; "геймификация"; "serious games"; "обучающие игры";
      "игрофикация"; "game-based learning"; "игровое обучение"; "simulation";
      "симуляция"; "virtual world"; "виртуальный мир"; "game mechanics";
      "игровые механики"]);
   ("мобильные_устройства",
    ["smartphone"; "смартфон"; "tablet"; "планшет"; "smartwatch";
      "умные часы"; "wearable"; "носимые устройства"; "mobile device";
      "мобильное устройство"; "app"; "приложение"; "mobile os";
      "мобильная ос"; "iphone"; "samsung galaxy"; "AirPods"])].

(** ** Collaborators outside the repository *)

Class Externals := {
  (** [str.lower] *)
  lower : string -> string;
  (** [sia.polarity_scores(text)['compound']] *)
  polarity_compound : string -> Q;
  (** [translator.translate(text, dest=TARGET_LANGUAGE).text]; [None] when
      the call raises *)
  translator_translate : string -> option string;
  (** [utils.clean_html]: [re.sub('<.*?>', '', raw_html).strip()] *)
  clean_html : string -> string
}.

(** ** Data *)

(** A fetched article: the dict built by [rss_parser.parse_entry]. *)
Record Article := {
  a_id : string;
  a_title : string;
  a_summary : string;
  a_link : string;
  a_pub_date : Z;
  a_source : string
}.

(** A processed article: the dict returned by [process_single_article];
    [category] is [None] or one of the category names. *)
Record ProcessedArticle := {
  p_id : string;
  p_title : string;
  p_summary : string;
  p_link : string;
  p_pub_date : Z;
  p_source : string;
  category : option string;
  interest_score : Q;
  is_breaking : bool
}.

(** A row of the [events] table; [ev_date] is a day number. *)
Record EventRow := {
  ev_id : Z;
  ev_name : string;
  ev_date : Z;
  ev_keywords : string
}.

(** A row of the [articles] table, the publication ledger. *)
Record Row := {
  row_id : string;
  row_title : string;
  row_pub_date : Z
}.

(** ** utils.py *)

Definition truncate_summary (summary : string) (max_length : nat) : string :=
  if py_len summary <=? Z.of_nat max_length then summary
  else
    let truncated := py_take max_length summary in
    let truncated := match before_last_space truncated with
                     | Some p => p
                     | None => truncated
                     end in
    truncated ++ "...".

(** ** database.py: events *)

(** [SELECT * FROM events WHERE date = ?] with [date.today()]. *)
Definition get_today_events (events : list EventRow) (now : Z)
  : list EventRow :=
  filter (fun e => ev_date e =? now / 86400) events.

(** ** article_processor.py: scoring *)

Definition Qltb (x y : Q) : bool := negb (Qle_bool y x).

(** [category_weights.get(category, 0.0)] *)
Fixpoint weights_get (table : list (string * Q)) (cat : string) : Q :=
  match table with
  | [] => 0.0
  | (k, w) :: rest => if String.eqb k cat then w else weights_get rest cat
  end.

(** [max(category_scores, key=category_scores.get)] on a dict in insertion
    order: the first key whose count is maximal. *)
Fixpoint max_by_count (best : string * Z) (rest : list (string * Z))
  : string :=
  match rest with
  | [] => fst best
  | kv :: rest' =>
      if snd best <? snd kv then max_by_count kv rest'
      else max_by_count best rest'
  end.

Definition sum_Z (l : list Z) : Z := fold_right Z.add 0 l.

Section Scoring.
Context {ext : Externals}.

Definition translate_text (text : string) : string :=
  match translator_translate text with
  | Some t => t
  | None => text
  end.

(** The per-category match counts, [category_scores]. *)
Definition category_scores (content : string) : list (string * Z) :=
  map (fun ck : string * list string =>
         (fst ck,
          sum_Z (map (fun keyword => py_count content (lower keyword))
                     (snd ck))))
      category_keywords.

Definition categorize_article (content : string) : option string :=
  let content := lower content in
  if existsb (fun word => contains (lower word) content) BLACKLIST_KEYWORDS
  then None
  else
    let scores := category_scores content in
    if negb (existsb (fun kv => negb (snd kv =? 0)) scores) then None
    else match scores with
         | [] => None
         | kv :: rest => Some (max_by_count kv rest)
         end.

(** [calculate_interest_score], with the priority-category list as a
    parameter; the source reads the global [PRIORITY_CATEGORIES]. *)
Definition calculate_interest_score_with (priority : list string)
  (events : list EventRow) (now : Z)
  (article : Article) (title summary : string) : Q :=
  let content := title ++ " " ++ summary in
  match categorize_article content with
  | None => 0
  | Some category =>
      let score := weights_get category_weights category in
      let score := if negb (str_in category priority)
                   then (score * 0.1)%Q else score in
      let sentiment_score := polarity_compound content in
      let score := (score + sentiment_score * 0.1)%Q in
      let today_events := get_today_events events now in
      let score :=
        fold_left
          (fun score event =>
             let event_keywords := split_comma (ev_keywords event) in
             if existsb (fun keyword =>
                           contains (lower keyword) (lower content))
                        event_keywords
             then (score + 0.5)%Q else score)
          today_events score in
      let days := (now - a_pub_date article) / 86400 in
      let score := if days =? 0 then (score + 0.3)%Q
                   else if days <=? 2 then (score + 0.1)%Q
                   else score in
      let score := if existsb (fun source => contains source (a_source article))
                              PRIORITY_SOURCES
                   then (score + 0.2)%Q else score in
      let content_length := py_len content in
      let score := if 1000 <? content_length then (score + 0.2)%Q
                   else if 500 <? content_length then (score + 0.1)%Q
                   else score in
      let importance_keywords :=
        ["важно"; "критично"; "прорыв"; "революционно"; "впервые"] in
      let score := if existsb (fun keyword => contains keyword (lower content))
                              importance_keywords
                   then (score + 0.3)%Q else score in
      score
  end.

Definition calculate_interest_score :=
  calculate_interest_score_with PRIORITY_CATEGORIES.

Definition is_breaking_news (article : Article) (title summary : string)
  : bool :=
  let text_to_check := lower (title ++ " " ++ summary) in
  if existsb (fun keyword => contains (lower keyword) text_to_check)
             BREAKING_NEWS_KEYWORDS
  then true
  else if existsb (fun source => contains source (a_source article))
                  PRIORITY_SOURCES
  then true
  else false.

(** [process_single_article]: the Python function is annotated to return
    a dict or [None]; its single [return] builds the dict. *)
Definition process_single_article (events : list EventRow) (now : Z)
  (article : Article) : option ProcessedArticle :=
  let title := translate_text (clean_html (a_title article)) in
  let summary := translate_text (clean_html (a_summary article)) in
  let summary := truncate_summary summary SUMMARY_LENGTH in
  let category := categorize_article (title ++ " " ++ summary) in
  let interest_score := calculate_interest_score events now article title summary in
  let is_breaking := is_breaking_news article title summary in
  Some {| p_id := a_id article;
          p_title := title;
          p_summary := summary;
          p_link := a_link article;
          p_pub_date := a_pub_date article;
          p_source := a_source article;
          category := category;
          interest_score := interest_score;
          is_breaking := is_breaking |}.

(** [process_articles]: a result is kept when it is truthy, which every
    non-empty dict is. *)
Fixpoint process_articles (events : list EventRow) (now : Z)
  (articles : list Article) : list ProcessedArticle :=
  match articles with
  | [] => []
  | article :: rest =>
      match process_single_article events now article with
      | Some processed => processed :: process_articles events now rest
      | None => process_articles events now rest
      end
  end.

End Scoring.

(** ** article_processor.py: selection *)

(** Round a rational to the nearest binary64 value, ties to even (the
    normal range only: neither overflow nor subnormals). *)
Definition b64_scale (p : Z) (q : positive) (e : Z) : Z * Z :=
  if 0 <=? e then (p, Zpos q * 2 ^ e) else (p * 2 ^ (- e), Zpos q).

Definition b64_exponent (p : Z) (q : positive) : Z :=
  let e := Z.log2 p - Z.log2 (Zpos q) - 52 in
  let m e' := let '(n, d) := b64_scale p q e' in n / d in
  if 2 ^ 53 <=? m e then e + 1
  else if m e <? 2 ^ 52 then e - 1
  else e.

Definition b64_pos (p : Z) (q : positive) : Q :=
  let e := b64_exponent p q in
  let '(n, d) := b64_scale p q e in
  let m := n / d in
  let r := n mod d in
  let m := if (d <? 2 * r) || ((d =? 2 * r) && Z.odd m) then m + 1 else m in
  if 0 <=? e then inject_Z (m * 2 ^ e) else m # Pos.pow 2 (Z.to_pos (- e)).

Definition b64 (x : Q) : Q :=
  match Qnum x with
  | Z0 => 0
  | Zpos _ => b64_pos (Qnum x) (Qden x)
  | Zneg _ => - b64_pos (- Qnum x) (Qden x)
  end.

(** [int(x)] on a float: truncation toward zero. *)
Definition py_int (x : Q) : Z := Z.quot (Qnum x) (Zpos (Qden x)).

(** [top_count = int(num_to_select * TOP_ARTICLES_PERCENTAGE)], the product
    being a binary64 multiplication of the two floats. *)
Definition top_count (num_to_select : nat) : nat :=
  Z.to_nat
    (py_int (b64 (b64 (inject_Z (Z.of_nat num_to_select))
                  * b64 TOP_ARTICLES_PERCENTAGE))).

(** Equality of two processed articles, as [==] on their dicts. *)
Definition option_string_eqb (x y : option string) : bool :=
  match x, y with
  | Some a, Some b => String.eqb a b
  | None, None => true
  | _, _ => false
  end.

Definition processed_eqb (a b : ProcessedArticle) : bool :=
  String.eqb (p_id a) (p_id b) && String.eqb (p_title a) (p_title b) &&
  String.eqb (p_summary a) (p_summary b) && String.eqb (p_link a) (p_link b) &&
  (p_pub_date a =? p_pub_date b) && String.eqb (p_source a) (p_source b) &&
  option_string_eqb (category a) (category b) &&
  Qeq_bool (interest_score a) (interest_score b) &&
  Bool.eqb (is_breaking a) (is_breaking b).

(** [sorted(articles, key=..., reverse=True)]: a stable sort, larger
    scores first, equal scores in their original order. *)
Fixpoint insert_desc (x : ProcessedArticle) (l : list ProcessedArticle)
  : list ProcessedArticle :=
  match l with
  | [] => [x]
  | y :: l' =>
      if Qltb (interest_score x) (interest_score y)
      then y :: insert_desc x l'
      else x :: l
  end.

Definition sorted_desc (articles : list ProcessedArticle)
  : list ProcessedArticle :=
  fold_right insert_desc [] articles.

Fixpoint remove_at {A} (i : nat) (l : list A) : list A :=
  match l, i with
  | [], _ => []
  | _ :: l', O => l'
  | x :: l', S j => x :: remove_at j l'
  end.

(** [random.sample(population, k)] for [k <= len(population)]: [k]
    positions chosen without replacement.  The random numbers are the
    input [draws]; draw [r] picks position [r mod n] of the [n] items
    still in the pool. *)
Fixpoint random_sample {A} (population : list A) (k : nat) (draws : list nat)
  : list A :=
  match k with
  | O => []
  | S k' =>
      match population with
      | [] => []
      | x0 :: _ =>
          let i := (hd O draws mod List.length population)%nat in
          nth i population x0
            :: random_sample (remove_at i population) k' (tl draws)
      end
  end.

Definition select_interesting_articles (articles : list ProcessedArticle)
  (num_to_select : nat) (draws : list nat) : list ProcessedArticle :=
  let sorted_articles := sorted_desc articles in
  let top_count := top_count num_to_select in
  let selected := firstn top_count sorted_articles in
  let other_articles :=
    filter (fun a => negb (existsb (processed_eqb a) selected))
           sorted_articles in
  let diversity_count := (num_to_select - top_count)%nat in
  match other_articles with
  | [] => selected
  | _ :: _ =>
      selected ++ random_sample other_articles
                    (Nat.min (List.length other_articles) diversity_count) draws
  end.

(** ** database.py: the publication ledger

    The [articles] table is the list of its rows; [id] is its PRIMARY KEY,
    which [INSERT OR REPLACE] maintains by deleting the row in conflict
    before it inserts. *)

Definition create_db : list Row := [].

(** [SELECT * FROM articles WHERE id=?], [fetchone() is not None]. *)
Definition is_article_published (ledger : list Row) (article_id : string)
  : bool :=
  existsb (fun r => String.eqb (row_id r) article_id) ledger.

(** [INSERT OR REPLACE INTO articles VALUES (?, ?, ?)]. *)
Definition add_published_article (ledger : list Row)
  (article_id title : string) (pub_date : Z) : list Row :=
  filter (fun r => negb (String.eqb (row_id r) article_id)) ledger
  ++ [{| row_id := article_id; row_title := title; row_pub_date := pub_date |}].

(** [SELECT MAX(pub_date) FROM articles]. *)
Definition get_last_publication_time (ledger : list Row) : option Z :=
  match ledger with
  | [] => None
  | r :: rest =>
      Some (fold_left (fun m r' => Z.max m (row_pub_date r')) rest
                      (row_pub_date r))
  end.

(** [SELECT COUNT( * ) FROM articles WHERE pub_date > ?] with
    [datetime.now() - timedelta(hours=1)]. *)
Definition get_publications_in_last_hour (ledger : list Row) (now : Z) : Z :=
  let one_hour_ago := now - 3600 in
  Z.of_nat (List.length (filter (fun r => one_hour_ago <? row_pub_date r) ledger)).

(** ** rss_parser.py: fetching *)

(** One feed: [entries] are the results of [parse_entry] on the feed's
    entries, [None] for an entry that is invalid or older than 7 days. *)
Definition fetch_feed (ledger : list Row) (entries : list (option Article))
  : list Article :=
  flat_map
    (fun entry =>
       match entry with
       | Some article =>
           if negb (is_article_published ledger (a_id article))
           then [article] else []
       | None => []
       end)
    (firstn ARTICLES_PER_FEED entries).

Definition fetch_articles (ledger : list Row)
  (feeds : list (list (option Article))) : list Article :=
  flat_map (fetch_feed ledger) feeds.

(** ** bot.py: the state *)

(** What the bot acts on: the wall clock, the two tables it reads and
    writes, and the channel, a log of the delivered article ids with the
    instants of their delivery. *)
Record World := {
  clock : Z;
  ledger : list Row;
  events : list EventRow;
  channel : list (string * Z)
}.

(** The fields of [NewsBot]; [pause_timer] holds the instant at which the
    pending [threading.Timer] is due. *)
Record NewsBot := {
  pause_until : option Z;
  pause_timer : option Z;
  publication_delay : Z;
  optimal_publishing_hours : list Z
}.

(** What one delivery attempt meets: the time that passes before the
    loop samples the clock, the time the call to Telegram takes, and the
    message id it returns ([None] when [send_message] raises). *)
Record Delivery := {
  pre_delay : Z;
  latency : Z;
  send_result : option Z
}.

(** The inputs of one publication cycle. *)
Record CycleInput := {
  draw : Q;
  feeds : list (list (option Article));
  deliveries : list Delivery
}.

Inductive CycleResult :=
| SkippedPaused
| SkippedNotOptimal
| SkippedNoArticles
| SkippedNotInteresting
| Completed (published_count : Z)
| Raised.

(** Time passing: [time.sleep] and the duration of calls. *)
Definition advance (w : World) (dt : Z) : World :=
  {| clock := clock w + Z.max 0 dt;
     ledger := ledger w;
     events := events w;
     channel := channel w |}.

Definition set_ledger (w : World) (l : list Row) : World :=
  {| clock := clock w; ledger := l; events := events w;
     channel := channel w |}.

(** ** bot.py: the cadence gate *)

(** [max(a, b)] on two floats. *)
Definition py_max (a b : Q) : Q := if Qltb a b then b else a.

(** [min(hours, key=lambda x: abs(x - current_hour))] on a non-empty list:
    the first hour at the least distance. *)
Fixpoint min_by_distance (current_hour best : Z) (rest : list Z) : Z :=
  match rest with
  | [] => best
  | x :: rest' =>
      if Z.abs (x - current_hour) <? Z.abs (best - current_hour)
      then min_by_distance current_hour x rest'
      else min_by_distance current_hour best rest'
  end.

(** [should_publish_now]; [draw] is the value of [random.random()].
    [None] is the [ValueError] that [min] raises on an empty list. *)
Definition should_publish_now (hours : list Z) (current_hour : Z) (draw : Q)
  : option bool :=
  if existsb (Z.eqb current_hour) hours then Some true
  else
    match hours with
    | [] => None
    | h :: rest =>
        let closest_optimal := min_by_distance current_hour h rest in
        let time_difference := Z.abs (closest_optimal - current_hour) in
        let publish_chance :=
          py_max (0.2 - inject_Z time_difference * 0.01)%Q 0.05%Q in
        Some (Qltb draw publish_chance)
    end.

(** [datetime.now().hour] *)
Definition hour_of (now : Z) : Z := (now / 3600) mod 24.

(** ** publisher.py *)

(** [publish_to_telegram]: [format_message] raises on a [None] category
    ([None.upper()]), [send_message] may raise; every exception is caught
    and gives [None].  A sent message is written to the ledger with the
    instant of sending. *)
Definition publish_to_telegram (w : World) (article : ProcessedArticle)
  (d : Delivery) : World * option Z :=
  match category article with
  | None => (w, None)
  | Some _ =>
      let w := advance w (latency d) in
      match send_result d with
      | None => (w, None)
      | Some message_id =>
          ({| clock := clock w;
              ledger := add_published_article (ledger w) (p_id article)
                          (p_title article) (clock w);
              events := events w;
              channel := channel w ++ [(p_id article, clock w)] |},
           Some message_id)
      end
  end.

(** ** bot.py: the publication cycle *)

Definition no_delivery : Delivery :=
  {| pre_delay := 0; latency := 0; send_result := None |}.

(** The [for] loop of [process_and_publish]. *)
Fixpoint publish_loop (w : World) (published_count : Z)
  (last_publication_time : option Z)
  (articles : list ProcessedArticle) (ds : list Delivery) : World * Z :=
  match articles with
  | [] => (w, published_count)
  | article :: rest =>
      if MAX_PUBLICATIONS_PER_HOUR <=? published_count
      then (w, published_count)
      else
        let d := hd no_delivery ds in
        let w := advance w (pre_delay d) in
        let current_time := clock w in
        let w :=
          match last_publication_time with
          | Some last =>
              if current_time - last <? MIN_PUBLICATION_INTERVAL * 60
              then let wait_time :=
                     last + MIN_PUBLICATION_INTERVAL * 60 - current_time in
                   advance w wait_time
              else w
          | None => w
          end in
        if negb (is_article_published (ledger w) (p_id article))
        then
          let '(w, message_id) := publish_to_telegram w article d in
          match message_id with
          | Some m =>
              if negb (m =? 0)
              then
                let w := set_ledger w
                           (add_published_article (ledger w) (p_id article)
                              (p_title article) current_time) in
                publish_loop w (published_count + 1) (Some current_time)
                             rest (tl ds)
              else publish_loop w published_count last_publication_time
                                rest (tl ds)
          | None => publish_loop w published_count last_publication_time
                                 rest (tl ds)
          end
        else publish_loop w published_count last_publication_time
                          rest (tl ds)
  end.

Definition increase_publication_delay (b : NewsBot) (increase_minutes : Z)
  : NewsBot :=
  {| pause_until := pause_until b;
     pause_timer := pause_timer b;
     publication_delay := publication_delay b + increase_minutes;
     optimal_publishing_hours := optimal_publishing_hours b |}.

Section Cycle.
Context {ext : Externals}.

(** The articles that [process_and_publish] goes on to publish: fetched,
    processed, and kept when they reach the minimum interest score. *)
Definition interesting_articles (w : World)
  (fetched : list (list (option Article))) : list ProcessedArticle :=
  let articles := fetch_articles (ledger w) fetched in
  let processed_articles := process_articles (events w) (clock w) articles in
  filter (fun article => Qle_bool MIN_INTEREST_SCORE (interest_score article))
         processed_articles.

Definition process_and_publish (b : NewsBot) (w : World) (i : CycleInput)
  : NewsBot * World * CycleResult :=
  match should_publish_now (optimal_publishing_hours b) (hour_of (clock w))
                           (draw i) with
  | None => (b, w, Raised)
  | Some false => (b, w, SkippedNotOptimal)
  | Some true =>
      match fetch_articles (ledger w) (feeds i) with
      | [] => (b, w, SkippedNoArticles)
      | _ :: _ =>
          match interesting_articles w (feeds i) with
          | [] => (increase_publication_delay b PUBLICATION_DELAY_INCREASE,
                   w, SkippedNotInteresting)
          | interesting =>
              let '(w', published_count) :=
                publish_loop w 0 None interesting (deliveries i) in
              (b, w', Completed published_count)
          end
      end
  end.

(** [is_paused]: [self.pause_until and datetime.now() < self.pause_until]. *)
Definition is_paused (b : NewsBot) (now : Z) : bool :=
  match pause_until b with
  | Some until => now <? until
  | None => false
  end.

Definition run_scheduled_job (b : NewsBot) (w : World) (i : CycleInput)
  : NewsBot * World * CycleResult :=
  if is_paused b (clock w) then (b, w, SkippedPaused)
  else process_and_publish b w i.

End Cycle.

(** ** bot.py: pause and resume *)

(** [pause_publications]: a pending timer is cancelled and a new one,
    due in [hours * 3600] seconds, takes its place. *)
Definition pause_publications (b : NewsBot) (now hours : Z) : NewsBot :=
  {| pause_until := Some (now + hours * 3600);
     pause_timer := Some (now + hours * 3600);
     publication_delay := publication_delay b;
     optimal_publishing_hours := optimal_publishing_hours b |}.

Definition resume_publications (b : NewsBot) : NewsBot :=
  {| pause_until := None;
     pause_timer := None;
     publication_delay := publication_delay b;
     optimal_publishing_hours := optimal_publishing_hours b |}.

(** The timer thread: it calls [resume_publications] once its timer is
    due, and does nothing before or when no timer is pending. *)
Definition timer_thread (b : NewsBot) (now : Z) : NewsBot :=
  match pause_timer b with
  | Some due => if due <=? now then resume_publications b else b
  | None => b
  end.

(** ** The running system

    What happens to the bot, one thing at a time: the scheduler runs the
    job, the administrator pauses or resumes, the timer thread runs, time
    passes. *)

Record System := {
  bot : NewsBot;
  world : World;
  results : list CycleResult
}.

Inductive Command :=
| Tick (i : CycleInput)
| Pause (hours : Z)
| Resume
| TimerThread
| Elapse (dt : Z).

Section Running.
Context {ext : Externals}.

Definition step (s : System) (c : Command) : System :=
  match c with
  | Tick i =>
      let '(b, w, r) := run_scheduled_job (bot s) (world s) i in
      {| bot := b; world := w; results := results s ++ [r] |}
  | Pause hours =>
      {| bot := pause_publications (bot s) (clock (world s)) hours;
         world := world s; results := results s |}
  | Resume =>
      {| bot := resume_publications (bot s);
         world := world s; results := results s |}
  | TimerThread =>
      {| bot := timer_thread (bot s) (clock (world s));
         world := world s; results := results s |}
  | Elapse dt =>
      {| bot := bot s; world := advance (world s) dt; results := results s |}
  end.

Definition run (s : System) (cs : list Command) : System :=
  fold_left step cs s.

End Running.

(** ** The scheduler thread among the other threads

    [NewsBot.run] starts the polling thread before it enters the loop of
    the scheduler, and [pause_publications] starts a timer thread.  The
    handlers of the polling thread and the timer call
    [pause_publications] and [resume_publications] when their message or
    their hour comes, also while the scheduler thread is inside
    [process_and_publish].  Here the job is taken one pass of its [for]
    loop at a time, and the other threads move between the passes. *)

(** One pass of the body of the [for] loop, below the test of the hourly
    limit: the world, the count and the time of the last publication
    that it leaves. *)
Definition publish_one (w : World) (published_count : Z)
  (last_publication_time : option Z) (article : ProcessedArticle)
  (d : Delivery) : World * Z * option Z :=
  let w := advance w (pre_delay d) in
  let current_time := clock w in
  let w :=
    match last_publication_time with
    | Some last =>
        if current_time - last <? MIN_PUBLICATION_INTERVAL * 60
        then let wait_time :=
               last + MIN_PUBLICATION_INTERVAL * 60 - current_time in
             advance w wait_time
        else w
    | None => w
    end in
  if negb (is_article_published (ledger w) (p_id article))
  then
    let '(w, message_id) := publish_to_telegram w article d in
    match message_id with
    | Some m =>
        if negb (m =? 0)
        then
          (set_ledger w
             (add_published_article (ledger w) (p_id article)
                (p_title article) current_time),
           published_count + 1, Some current_time)
        else (w, published_count, last_publication_time)
    | None => (w, published_count, last_publication_time)
    end
  else (w, published_count, last_publication_time).

(** The local variables of [process_and_publish] at the head of its
    [for] loop: the two counters, the articles still to come and the
    deliveries they will meet. *)
Record Loop := {
  published_count : Z;
  last_publication_time : option Z;
  remaining_articles : list ProcessedArticle;
  remaining_deliveries : list Delivery
}.

(** The bot with its scheduler thread: [job] is [None] while the thread
    waits in [schedule.run_pending] and [time.sleep(1)], and holds the
    loop while the thread is inside [process_and_publish]. *)
Record Process := {
  system : System;
  job : option Loop
}.

(** What happens next: the scheduler thread calls [run_scheduled_job] or
    comes to the head of the loop again, a handler of the polling thread
    pauses or resumes, the timer thread runs, time passes. *)
Inductive Move :=
| SchedulerStarts (i : CycleInput)
| SchedulerLoops
| AdminPauses (hours : Z)
| AdminResumes
| TimerRuns
| TimePasses (dt : Z).

Section Threads.
Context {ext : Externals}.

(** The job returns: its outcome is noted and the thread is idle. *)
Definition job_returns (s : System) (b : NewsBot) (r : CycleResult)
  : Process :=
  {| system := {| bot := b; world := world s;
                  results := results s ++ [r] |};
     job := None |}.

(** [run_scheduled_job] and [process_and_publish] down to the [for]
    loop. *)
Definition start_job (s : System) (i : CycleInput) : Process :=
  let b := bot s in
  let w := world s in
  if is_paused b (clock w) then job_returns s b SkippedPaused
  else
    match should_publish_now (optimal_publishing_hours b) (hour_of (clock w))
                             (draw i) with
    | None => job_returns s b Raised
    | Some false => job_returns s b SkippedNotOptimal
    | Some true =>
        match fetch_articles (ledger w) (feeds i) with
        | [] => job_returns s b SkippedNoArticles
        | _ :: _ =>
            match interesting_articles w (feeds i) with
            | [] =>
                job_returns s
                  (increase_publication_delay b PUBLICATION_DELAY_INCREASE)
                  SkippedNotInteresting
            | interesting =>
                {| system := s;
                   job := Some {| published_count := 0;
                                  last_publication_time := None;
                                  remaining_articles := interesting;
                                  remaining_deliveries := deliveries i |} |}
            end
        end
    end.

(** The head of the [for] loop: the loop ends when no article is left or
    the hourly limit is reached, and handles the next article otherwise.
    Nothing here reads [pause_until]. *)
Definition next_article (s : System) (l : Loop) : Process :=
  match remaining_articles l with
  | [] => job_returns s (bot s) (Completed (published_count l))
  | article :: rest =>
      if MAX_PUBLICATIONS_PER_HOUR <=? published_count l
      then job_returns s (bot s) (Completed (published_count l))
      else
        let '(w, n, last) :=
          publish_one (world s) (published_count l)
                      (last_publication_time l) article
                      (hd no_delivery (remaining_deliveries l)) in
        {| system := {| bot := bot s; world := w; results := results s |};
           job := Some {| published_count := n;
                          last_publication_time := last;
                          remaining_articles := rest;
                          remaining_deliveries :=
                            tl (remaining_deliveries l) |} |}
  end.

(** A call on another thread leaves the scheduler thread where it is. *)
Definition elsewhere (p : Process) (c : Command) : Process :=
  {| system := step (system p) c; job := job p |}.

Definition move (p : Process) (m : Move) : Process :=
  match m with
  | SchedulerStarts i =>
      match job p with
      | Some _ => p
      | None => start_job (system p) i
      end
  | SchedulerLoops =>
      match job p with
      | Some l => next_article (system p) l
      | None => p
      end
  | AdminPauses hours => elsewhere p (Pause hours)
  | AdminResumes => elsewhere p Resume
  | TimerRuns => elsewhere p TimerThread
  | TimePasses dt => elsewhere p (Elapse dt)
  end.

Definition moves (p : Process) (ms : list Move) : Process :=
  fold_left move ms p.

End Threads.

(** ** Further functions of the repository *)

(** *** utils.py, rss_parser.py: reading a feed entry *)

(** [remove_img_tags]: [re.sub(r'<img[^>]*>', '', text)].  A match starts
    at a ["<img"] that has some [">"] after it and ends at the first such
    [">"]; [in_tag] tells that the scan is inside a match. *)
Fixpoint remove_img_scan (in_tag : bool) (s : string) : string :=
  match s with
  | EmptyString => EmptyString
  | String c s' =>
      if in_tag
      then if Ascii.eqb c ">" then remove_img_scan false s'
           else remove_img_scan true s'
      else if starts_with "<img" s && contains ">" s'
           then remove_img_scan true s'
           else String c (remove_img_scan false s')
  end.

Definition remove_img_tags (text : string) : string :=
  remove_img_scan false text.

(** An entry of a parsed feed: the keys that [parse_entry] reads, [None]
    for a key that the entry lacks.  The two dates are the instants that
    [datetime( *pub_date[:6])] builds. *)
Record FeedEntry := {
  e_id : option string;
  e_link : option string;
  e_title : option string;
  e_summary : option string;
  e_published_parsed : option Z;
  e_updated_parsed : option Z
}.

Section Parsing.
Context {ext : Externals}.

(** [parse_entry]: reading a missing [link] or [title] raises, and every
    exception gives [None]; so does an entry older than 7 days. *)
Definition parse_entry (now : Z) (entry : FeedEntry) (feed_url : string)
  : option Article :=
  match e_link entry with
  | None => None
  | Some link =>
      let article_id := match e_id entry with
                        | Some i => i
                        | None => link
                        end in
      match e_title entry with
      | None => None
      | Some raw_title =>
          let title := clean_html raw_title in
          let summary := match e_summary entry with
                         | Some raw => clean_html (remove_img_tags raw)
                         | None => EmptyString
                         end in
          let pub_date :=
            match e_published_parsed entry with
            | Some d => d
            | None => match e_updated_parsed entry with
                      | Some d => d
                      | None => now
                      end
            end in
          if 7 * 86400 <? now - pub_date then None
          else Some {| a_id := article_id;
                       a_title := title;
                       a_summary := summary;
                       a_link := link;
                       a_pub_date := pub_date;
                       a_source := feed_url |}
      end
  end.

(** [fetch_feed] on the entries of a feed, [parse_entry] included. *)
Definition fetch_feed_entries (ledger : list Row) (now : Z)
  (feed_url : string) (entries : list FeedEntry) : list Article :=
  fetch_feed ledger (map (fun entry => parse_entry now entry feed_url) entries).

End Parsing.

(** *** database.py, events.py: events *)

(** [','.join(keywords)] *)
Fixpoint join_comma (keywords : list string) : string :=
  match keywords with
  | [] => EmptyString
  | [k] => k
  | k :: rest => k ++ "," ++ join_comma rest
  end.

(** [add_event]: [INSERT INTO events (name, date, keywords)]; [rowid] is
    the id that the table's AUTOINCREMENT sequence hands out. *)
Definition add_event (events : list EventRow) (rowid : Z) (name : string)
  (event_date : Z) (keywords : list string) : list EventRow :=
  events ++ [{| ev_id := rowid; ev_name := name; ev_date := event_date;
                ev_keywords := join_comma keywords |}].

(** An item of the list that [get_relevant_events] returns. *)
Record RelevantEvent := {
  re_id : Z;
  re_name : string;
  re_date : Z;
  re_keywords : list string
}.

Section Events.
Context {ext : Externals}.

(** [get_relevant_events] of events.py. *)
Definition get_relevant_events (events : list EventRow) (now : Z)
  (article_content : string) : list RelevantEvent :=
  flat_map
    (fun event =>
       let event_keywords := split_comma (ev_keywords event) in
       if existsb (fun keyword =>
                     contains (lower keyword) (lower article_content))
                  event_keywords
       then [{| re_id := ev_id event; re_name := ev_name event;
                re_date := ev_date event; re_keywords := event_keywords |}]
       else [])
    (get_today_events events now).

End Events.

(** *** bot.py: the best hours *)

(** A row of the [post_stats] table. *)
Record PostStat := {
  ps_message_id : Z;
  ps_post_time : Z;
  ps_views : Z;
  ps_forwards : Z;
  ps_reactions : Z
}.

(** [views + forwards * 5 + reactions * 2] *)
Definition engagement (r : PostStat) : Z :=
  ps_views r + ps_forwards r * 5 + ps_reactions r * 2.

(** [AVG] of a non-empty group. *)
Definition average (values : list Z) : Q :=
  sum_Z values # Pos.of_nat (List.length values).

(** The groups of the query: for each hour of the day that has a row newer
    than 30 days, the hour and the average engagement of its rows. *)
Definition hourly_engagement (post_stats : list PostStat) (now : Z)
  : list (Z * Q) :=
  let recent :=
    filter (fun r => now - 30 * 86400 <=? ps_post_time r) post_stats in
  flat_map
    (fun hour =>
       match filter (fun r => hour_of (ps_post_time r) =? hour) recent with
       | [] => []
       | rows => [(hour, average (map engagement rows))]
       end)
    (map Z.of_nat (seq 0 24)).

(** [ORDER BY engagement_score DESC]: groups of equal score are left in
    the order of their hours. *)
Fixpoint insert_by_score (x : Z * Q) (l : list (Z * Q)) : list (Z * Q) :=
  match l with
  | [] => [x]
  | y :: l' =>
      if Qltb (snd x) (snd y) then y :: insert_by_score x l' else x :: l
  end.

Definition order_by_score_desc (groups : list (Z * Q)) : list (Z * Q) :=
  fold_right insert_by_score [] groups.

(** [analyze_optimal_publishing_time], the table and the time being
    arguments. *)
Definition analyze_optimal_publishing_time (post_stats : list PostStat)
  (now : Z) : list Z :=
  let result :=
    firstn 5 (order_by_score_desc (hourly_engagement post_stats now)) in
  match result with
  | [] => [9; 12; 15; 18; 21]
  | _ :: _ => map fst result
  end.

Definition update_optimal_publishing_time (b : NewsBot)
  (post_stats : list PostStat) (now : Z) : NewsBot :=
  {| pause_until := pause_until b;
     pause_timer := pause_timer b;
     publication_delay := publication_delay b;
     optimal_publishing_hours :=
       analyze_optimal_publishing_time post_stats now |}.

(* ================================================================== *)
(** * Part II: vocabulary of the statements                            *)
(* ================================================================== *)

(** [needle] occurs in [hay]. *)
Definition is_substring (needle hay : string) : Prop :=
  exists pre post, hay = pre ++ needle ++ post.

Section Vocabulary.
Context {ext : Externals}.

(** A blocked term occurs in the text, case ignored. *)
Definition has_blocked_term (text : string) : Prop :=
  exists word, In word BLACKLIST_KEYWORDS /\
               is_substring (lower word) (lower text).

(** The bonus for today's events: 0.5 for each event sharing a keyword
    with the text. *)
Definition event_bonus (events : list EventRow) (now : Z) (content : string)
  : Q :=
  fold_right
    (fun event acc =>
       if existsb (fun keyword => contains (lower keyword) (lower content))
                  (split_comma (ev_keywords event))
       then (acc + 0.5)%Q else acc)
    0%Q (get_today_events events now).

(** The sum of the signals other than the category weight: sentiment,
    events, recency, source, length, importance terms. *)
Definition additive_signals (events : list EventRow) (now : Z)
  (article : Article) (title summary : string) : Q :=
  let content := title ++ " " ++ summary in
  let days := (now - a_pub_date article) / 86400 in
  (polarity_compound content * 0.1
   + event_bonus events now content
   + (if days =? 0 then 0.3 else if days <=? 2 then 0.1 else 0)
   + (if existsb (fun source => contains source (a_source article))
                 PRIORITY_SOURCES then 0.2 else 0)
   + (if 1000 <? py_len content then 0.2
      else if 500 <? py_len content then 0.1 else 0)
   + (if existsb (fun keyword => contains keyword (lower content))
                 ["важно"; "критично"; "прорыв"; "революционно"; "впервые"]
      then 0.3 else 0))%Q.

End Vocabulary.

(** [d] is the distance from [current_hour] to the nearest hour of a
    profile. *)
Definition nearest_distance (hours : list Z) (current_hour d : Z) : Prop :=
  (exists h, In h hours /\ d = Z.abs (h - current_hour)) /\
  (forall h, In h hours -> d <= Z.abs (h - current_hour)).

(** The number of top items as the specification words it:
    [ceil(target_count * TOP_FRACTION)]. *)
Definition ceil_count (target_count : nat) : nat :=
  Z.to_nat (Qceiling (inject_Z (Z.of_nat target_count)
                      * TOP_ARTICLES_PERCENTAGE)).

(** [picks] are items of [pool] at distinct positions. *)
Definition drawn_without_replacement {A} (picks pool : list A) : Prop :=
  exists rest, Permutation (picks ++ rest) pool.

(** The number of ledger rows that carry an identifier. *)
Definition entries_of (ledger : list Row) (article_id : string) : nat :=
  List.length (filter (fun r => String.eqb (row_id r) article_id) ledger).

(** A ledger written by a sequence of [add_published_article] calls. *)
Definition record_all (records : list (string * string * Z))
  (ledger : list Row) : list Row :=
  fold_left (fun l r => add_published_article l (fst (fst r)) (snd (fst r))
                                              (snd r))
            records ledger.

(** The ledger holds no row for the article. *)
Definition unpublished_article (l : list Row) (a : Article) : Prop :=
  is_article_published l (a_id a) = false.

Definition unpublished (l : list Row) (p : ProcessedArticle) : Prop :=
  is_article_published l (p_id p) = false.

(** The recorded timestamps of a ledger, in row order. *)
Definition timestamps (ledger : list Row) : list Z :=
  map row_pub_date ledger.

(** Some two entries of a list of instants, at different positions, lie
    less than [gap] apart. *)
Fixpoint closer_than (gap : Z) (ts : list Z) : bool :=
  match ts with
  | [] => false
  | t :: rest =>
      existsb (fun t' => Z.abs (t - t') <? gap) rest || closer_than gap rest
  end.

(** The scheduler thread waits for its next job. *)
Definition idle (s : System) : Process := {| system := s; job := None |}.

(** The moves of a sequence are those of the scheduler, of the timer and
    of time: the administrator neither pauses nor resumes. *)
Definition hands_off (m : Move) : bool :=
  match m with
  | AdminPauses _ | AdminResumes => false
  | _ => true
  end.

Definition no_new_pause (m : Move) : bool :=
  match m with
  | AdminPauses _ => false
  | _ => true
  end.

(** ** A concrete setting

    Collaborators for evaluating the code on ASCII texts: letters A-Z are
    lowered, the sentiment is neutral, the translator is unreachable (so
    [translate_text] returns its argument) and the texts carry no markup. *)

Definition ascii_lower_char (c : ascii) : ascii :=
  let n := nat_of_ascii c in
  if (65 <=? n)%nat && (n <=? 90)%nat then ascii_of_nat (n + 32) else c.

Fixpoint ascii_lower (s : string) : string :=
  match s with
  | EmptyString => EmptyString
  | String c s' => String (ascii_lower_char c) (ascii_lower s')
  end.

Definition plain_externals : Externals :=
  {| lower := ascii_lower;
     polarity_compound := fun _ => 0%Q;
     translator_translate := fun _ => None;
     clean_html := fun s => s |}.

Definition mk_article (article_id title source : string) (pub_date : Z)
  : Article :=
  {| a_id := article_id; a_title := title; a_summary := "";
     a_link := "http://example.com/" ++ article_id;
     a_pub_date := pub_date; a_source := source |}.

(** An article on space flight from a priority source, published today. *)
Definition space_article : Article :=
  mk_article "s1" "Space station gets a new module"
             "https://techcrunch.com/feed/" 0.

(** A sale advertisement that calls itself breaking news. *)
Definition sale_article : Article :=
  mk_article "b1" "Breaking: Black Friday robot deals"
             "https://gizmodo.com/feed" 0.

(** Robotics articles, one per identifier. *)
Definition robot_article (article_id : string) : Article :=
  mk_article article_id ("New robot " ++ article_id)
             "https://gizmodo.com/feed" 0.

Definition ok_delivery (message_id : Z) : Delivery :=
  {| pre_delay := 0; latency := 1; send_result := Some message_id |}.

Definition fresh_world : World :=
  {| clock := 9 * 3600; ledger := create_db; events := []; channel := [] |}.

Definition fresh_bot : NewsBot :=
  {| pause_until := None; pause_timer := None;
     publication_delay := PUBLISH_INTERVAL;
     optimal_publishing_hours := [9; 12; 15; 18; 21] |}.

Definition fresh_system : System :=
  {| bot := fresh_bot; world := fresh_world; results := [] |}.

(** A cycle that finds the given articles, feed by feed, and delivers
    each of them in one second. *)
Definition cycle_of (ids : list (list string)) : CycleInput :=
  {| draw := 0%Q;
     feeds := map (map (fun i => Some (robot_article i))) ids;
     deliveries := map (fun _ => ok_delivery 100) (List.concat ids) |}.

Definition ten_ids : list string :=
  ["a01"; "a02"; "a03"; "a04"; "a05"; "a06"; "a07"; "a08"; "a09"; "a10"].

Definition ten_more_ids : list string :=
  ["a11"; "a12"; "a13"; "a14"; "a15"; "a16"; "a17"; "a18"; "a19"; "a20"].

(** A processed article with a given identifier and score. *)
Definition scored (article_id : string) (score : Q) : ProcessedArticle :=
  {| p_id := article_id; p_title := article_id; p_summary := "";
     p_link := ""; p_pub_date := 0; p_source := "";
     category := Some "робототехника"; interest_score := score;
     is_breaking := false |}.

Definition six_scored : list ProcessedArticle :=
  [scored "a" 9; scored "b" 8; scored "c" 7;
   scored "d" 6; scored "e" 5; scored "f" 4].

(** [b] does not outrank [a]. *)
Definition score_ge (a b : ProcessedArticle) : Prop :=
  (interest_score b <= interest_score a)%Q.

(** ** Vocabulary of the further properties *)

(** [p] is an initial part of [s]. *)
Definition is_prefix (p s : string) : Prop := exists rest, s = p ++ rest.

(** No two articles of a list are equal as dicts. *)
Definition pairwise_distinct (l : list ProcessedArticle) : Prop :=
  NoDup l /\
  forall a b, In a l -> In b l -> processed_eqb a b = true -> a = b.

(** The identifiers delivered to the channel. *)
Definition delivered_ids (w : World) : list string :=
  map fst (channel w).

(** The channel and the ledger agree: nothing was delivered twice, and
    what was delivered is recorded. *)
Definition consistent (w : World) : Prop :=
  NoDup (delivered_ids w) /\
  forall article_id, In article_id (delivered_ids w) ->
                     is_article_published (ledger w) article_id = true.

(** The number of cycles of a list of results that found nothing
    interesting. *)
Definition dry_cycles (rs : list CycleResult) : Z :=
  Z.of_nat (List.length
              (filter (fun r => match r with
                                | SkippedNotInteresting => true
                                | _ => false
                                end) rs)).

(** A feed entry dated ten days ago, and one of today. *)
Definition entry_of (link : string) (published : option Z) : FeedEntry :=
  {| e_id := None; e_link := Some link; e_title := Some "New robot";
     e_summary := Some "A <img src='r.png'> robot";
     e_published_parsed := published; e_updated_parsed := None |}.

(** Three posts: two at 10 o'clock, one at 14 o'clock. *)
Definition three_posts : list PostStat :=
  [{| ps_message_id := 1; ps_post_time := 10 * 3600; ps_views := 100;
      ps_forwards := 2; ps_reactions := 5 |};
   {| ps_message_id := 2; ps_post_time := 10 * 3600 + 60; ps_views := 50;
      ps_forwards := 0; ps_reactions := 0 |};
   {| ps_message_id := 3; ps_post_time := 14 * 3600; ps_views := 300;
      ps_forwards := 1; ps_reactions := 1 |}].

(** An event of day 0 on robots. *)
Definition robot_fair : EventRow :=
  {| ev_id := 1; ev_name := "Robot fair"; ev_date := 0;
     ev_keywords := "robot,fair" |}.

(** [y] has no greater average than [x]. *)
Definition score_not_below (x y : Z * Q) : Prop := (snd y <= snd x)%Q.

(** A row is of the last 30 days. *)
Definition is_recent (now : Z) (r : PostStat) : Prop :=
  now - 30 * 86400 <= ps_post_time r.

(* ================================================================== *)
(** * Part III: theorems                                               *)
(* ================================================================== *)

(** ** Substring search *)

Lemma starts_with_spec needle hay :
  starts_with needle hay = true <-> exists post, hay = needle ++ post.
Proof.
  revert hay; induction needle as [|a n IH]; intros hay; simpl.
  - split; [intros _; now exists hay | reflexivity].
  - destruct hay as [|b h].
    + split; [discriminate | intros [post H]; discriminate].
    + rewrite andb_true_iff, Ascii.eqb_eq, IH. split.
      * intros [-> [post ->]]. now exists post.
      * intros [post H]. injection H as -> ->. split; [reflexivity | now exists post].
Qed.

Lemma contains_spec needle hay :
  contains needle hay = true <-> is_substring needle hay.
Proof.
  unfold is_substring. induction hay as [|c h IH].
  - simpl. rewrite orb_false_r, starts_with_spec. split.
    + intros [post H]. now exists EmptyString, post.
    + intros [pre [post H]]. destruct pre; simpl in H.
      * now exists post.
      * discriminate.
  - change (contains needle (String c h))
      with (starts_with needle (String c h) || contains needle h).
    rewrite orb_true_iff, starts_with_spec, IH. split.
    + intros [[post H] | [pre [post H]]].
      * now exists EmptyString, post.
      * exists (String c pre), post. simpl. now rewrite H.
    + intros [pre [post H]]. destruct pre as [|c' pre]; simpl in H.
      * left. now exists post.
      * right. injection H as _ H. now exists pre, post.
Qed.

(** ** The scorer *)

Section ScorerFacts.
Context {ext : Externals}.

Lemma blocked_categorize content :
  has_blocked_term content -> categorize_article content = None.
Proof.
  intros [word [Hin Hsub]]. unfold categorize_article.
  replace (existsb (fun word0 => contains (lower word0) (lower content))
                   BLACKLIST_KEYWORDS) with true; [reflexivity|].
  symmetry. apply existsb_exists. exists word. split; [exact Hin|].
  now apply contains_spec.
Qed.

Lemma uncategorized_score priority events now article title summary :
  categorize_article (title ++ " " ++ summary) = None ->
  calculate_interest_score_with priority events now article title summary
  = 0%Q.
Proof.
  intros H. unfold calculate_interest_score_with. now rewrite H.
Qed.

(** C3.  Whenever a blocked term occurs, case ignored, in the text made of
    the title, a space and the summary, the interest score is 0 and the
    category is none, whatever the article, the events of the day, the
    time and the collaborators are. *)
Theorem blocked_term_veto :
  forall (events : list EventRow) (now : Z) (article : Article)
         (title summary : string),
    has_blocked_term (title ++ " " ++ summary) ->
    calculate_interest_score events now article title summary = 0%Q /\
    categorize_article (title ++ " " ++ summary) = None.
Proof.
  intros events now article title summary Hblocked.
  pose proof (blocked_categorize _ Hblocked) as Hcat.
  split; [|exact Hcat].
  now apply uncategorized_score.
Qed.

End ScorerFacts.

Lemma blocked_term_veto_witness :
  @has_blocked_term plain_externals
     ("Breaking: Black Friday robot deals" ++ " " ++ "") /\
  @calculate_interest_score plain_externals [] 0 sale_article
     "Breaking: Black Friday robot deals" "" = 0%Q /\
  @categorize_article plain_externals
     ("Breaking: Black Friday robot deals" ++ " " ++ "") = None.
Proof.
  assert (H : @has_blocked_term plain_externals
                ("Breaking: Black Friday robot deals" ++ " " ++ "")).
  { exists "Black Friday". split.
    - unfold BLACKLIST_KEYWORDS. simpl. tauto.
    - apply contains_spec. vm_compute. reflexivity. }
  split; [exact H|].
  exact (@blocked_term_veto plain_externals [] 0 sale_article
           "Breaking: Black Friday robot deals" "" H).
Defined.

(** ** process_single_article *)

Lemma Qltb_lt x y : Qltb x y = true <-> (x < y)%Q.
Proof.
  unfold Qltb. rewrite negb_true_iff. split.
  - intros H. apply Qnot_le_lt. intros Hle.
    apply Qle_bool_iff in Hle. congruence.
  - intros H. destruct (Qle_bool y x) eqn:E; [|reflexivity].
    apply Qle_bool_iff in E. exfalso. exact (Qlt_not_le _ _ H E).
Qed.

Lemma zero_below_threshold : Qle_bool MIN_INTEREST_SCORE 0 = false.
Proof. reflexivity. Qed.

Section ProcessingFacts.
Context {ext : Externals}.

Lemma unmatched_categorize content :
  (forall kv, In kv (category_scores (lower content)) -> snd kv = 0) ->
  categorize_article content = None.
Proof.
  intros Hzero. unfold categorize_article.
  destruct (existsb _ BLACKLIST_KEYWORDS); [reflexivity|].
  destruct (existsb (fun kv : string * Z => negb (snd kv =? 0))
                    (category_scores (lower content))) eqn:E.
  - apply existsb_exists in E. destruct E as [kv [Hin Hnz]].
    rewrite (Hzero kv Hin) in Hnz. discriminate.
  - reflexivity.
Qed.

Lemma priority_source_is_breaking article title summary :
  existsb (fun source => contains source (a_source article))
          PRIORITY_SOURCES = true ->
  is_breaking_news article title summary = true.
Proof.
  intros H. unfold is_breaking_news. rewrite H.
  now destruct (existsb _ BREAKING_NEWS_KEYWORDS).
Qed.

Lemma process_articles_length events now articles :
  List.length (process_articles events now articles) = List.length articles.
Proof.
  induction articles as [|a l IH]; simpl; [reflexivity|]. now rewrite IH.
Qed.

Lemma process_articles_map events now articles :
  map p_id (process_articles events now articles) = map a_id articles.
Proof.
  induction articles as [|a l IH]; simpl; [reflexivity|]. now rewrite IH.
Qed.

End ProcessingFacts.

(** C10.  [process_single_article] returns a record for every article and
    never [None]; the record repeats the article's id, link, date and
    source; its flag [is_breaking] is computed from the text and the
    source alone.  An article with a blocked term, or matching no
    category, is returned with category [None] and score 0; it is kept by
    [process_articles] and fails only the minimum-score test of the
    orchestrator.  A priority source makes [is_breaking] true whatever
    the score is, and some vetoed article does carry [is_breaking = true]. *)
Theorem process_single_article_always_returns :
  (forall (ext : Externals) (events : list EventRow) (now : Z)
          (article : Article),
      exists p : ProcessedArticle,
        process_single_article events now article = Some p /\
        (p_id p = a_id article /\ p_link p = a_link article /\
         p_pub_date p = a_pub_date article /\
         p_source p = a_source article) /\
        category p = categorize_article (p_title p ++ " " ++ p_summary p) /\
        is_breaking p = is_breaking_news article (p_title p) (p_summary p) /\
        (has_blocked_term (p_title p ++ " " ++ p_summary p) ->
         category p = None) /\
        ((forall kv,
             In kv (category_scores (lower (p_title p ++ " " ++ p_summary p))) ->
             snd kv = 0) ->
         category p = None) /\
        (category p = None ->
         interest_score p = 0%Q /\
         Qle_bool MIN_INTEREST_SCORE (interest_score p) = false) /\
        (existsb (fun source => contains source (a_source article))
                 PRIORITY_SOURCES = true ->
         is_breaking p = true) /\
        process_articles events now [article] = [p]) /\
  (exists (ext : Externals) (events : list EventRow) (now : Z)
          (article : Article) (p : ProcessedArticle),
      process_single_article events now article = Some p /\
      has_blocked_term (p_title p ++ " " ++ p_summary p) /\
      category p = None /\ interest_score p = 0%Q /\ is_breaking p = true).
Proof.
  split.
  - intros ext events now article.
    eexists. split; [reflexivity|]. cbn [p_id p_link p_pub_date p_source
      p_title p_summary category interest_score is_breaking].
    repeat split.
    + apply blocked_categorize.
    + apply unmatched_categorize.
    + unfold calculate_interest_score. now apply uncategorized_score.
    + unfold calculate_interest_score.
      rewrite uncategorized_score by assumption. exact zero_below_threshold.
    + apply priority_source_is_breaking.
  - exists plain_externals, [], 0, sale_article. eexists.
    split; [vm_compute; reflexivity|].
    cbn [p_title p_summary category interest_score is_breaking].
    split; [|vm_compute; repeat split; reflexivity].
    exists "Black Friday". split.
    + unfold BLACKLIST_KEYWORDS. simpl. tauto.
    + apply contains_spec. vm_compute. reflexivity.
Qed.

(** ** The ledger *)

Lemma is_published_after_add ledger article_id title pub_date :
  is_article_published
    (add_published_article ledger article_id title pub_date) article_id
  = true.
Proof.
  unfold is_article_published, add_published_article.
  rewrite existsb_app. simpl. rewrite String.eqb_refl.
  now rewrite orb_true_r.
Qed.

Lemma filter_out_filter_in ledger article_id :
  filter (fun r => String.eqb (row_id r) article_id)
         (filter (fun r => negb (String.eqb (row_id r) article_id)) ledger)
  = [].
Proof.
  induction ledger as [|r l IH]; simpl; [reflexivity|].
  destruct (String.eqb (row_id r) article_id) eqn:E; simpl; [exact IH|].
  now rewrite E.
Qed.

Lemma entries_after_add ledger article_id title pub_date :
  entries_of (add_published_article ledger article_id title pub_date)
             article_id = 1%nat.
Proof.
  unfold entries_of, add_published_article.
  rewrite filter_app, filter_out_filter_in. simpl.
  now rewrite String.eqb_refl.
Qed.

Lemma filter_out_idem ledger article_id :
  filter (fun r => negb (String.eqb (row_id r) article_id))
         (filter (fun r => negb (String.eqb (row_id r) article_id)) ledger)
  = filter (fun r => negb (String.eqb (row_id r) article_id)) ledger.
Proof.
  induction ledger as [|r l IH]; simpl; [reflexivity|].
  destruct (String.eqb (row_id r) article_id) eqn:E; simpl; [exact IH|].
  rewrite E. simpl. now rewrite IH.
Qed.

Lemma add_twice ledger article_id title pub_date title' pub_date' :
  add_published_article
    (add_published_article ledger article_id title pub_date)
    article_id title' pub_date'
  = add_published_article ledger article_id title' pub_date'.
Proof.
  unfold add_published_article.
  rewrite filter_app, filter_out_idem. simpl.
  rewrite String.eqb_refl. simpl. now rewrite app_nil_r.
Qed.

Lemma ids_of_filter (f : Row -> bool) ledger :
  NoDup (map row_id ledger) -> NoDup (map row_id (filter f ledger)).
Proof.
  induction ledger as [|r l IH]; simpl; intros H; [constructor|].
  inversion H as [|x xs Hnotin Hnodup]; subst.
  destruct (f r); simpl; [|now apply IH].
  constructor; [|now apply IH].
  intros Hin. apply Hnotin.
  apply in_map_iff in Hin. destruct Hin as [r' [Heq Hin]].
  apply filter_In in Hin. apply in_map_iff. exists r'. tauto.
Qed.

Lemma NoDup_snoc {A} (l : list A) (x : A) :
  NoDup l -> ~ In x l -> NoDup (l ++ [x]).
Proof.
  induction l as [|y l IH]; simpl; intros Hnd Hnotin.
  - constructor; [intros []|constructor].
  - inversion Hnd as [|z zs Hy Hl]; subst. constructor.
    + rewrite in_app_iff. simpl. intros [H | [H | []]]; [tauto|].
      apply Hnotin. now left.
    + apply IH; [assumption|]. intros H. apply Hnotin. now right.
Qed.

Lemma add_keeps_ids_unique ledger article_id title pub_date :
  NoDup (map row_id ledger) ->
  NoDup (map row_id (add_published_article ledger article_id title pub_date)).
Proof.
  intros H. unfold add_published_article. rewrite map_app. simpl.
  apply NoDup_snoc; [now apply ids_of_filter|].
  intros Hin. apply in_map_iff in Hin. destruct Hin as [r [Heq Hin]].
  apply filter_In in Hin. destruct Hin as [_ Hne].
  rewrite <- Heq, String.eqb_refl in Hne. discriminate.
Qed.

Lemma record_all_unique records ledger :
  NoDup (map row_id ledger) -> NoDup (map row_id (record_all records ledger)).
Proof.
  revert ledger. induction records as [|r rs IH]; intros ledger H; simpl.
  - exact H.
  - apply IH. now apply add_keeps_ids_unique.
Qed.

Lemma unique_ids_entries ledger article_id :
  NoDup (map row_id ledger) -> (entries_of ledger article_id <= 1)%nat.
Proof.
  unfold entries_of. induction ledger as [|r l IH]; simpl; intros Hnd; [lia|].
  inversion Hnd as [|x xs Hnotin Hl]; subst.
  destruct (String.eqb (row_id r) article_id) eqn:E; [|now apply IH].
  apply String.eqb_eq in E. simpl.
  replace (filter (fun r0 => String.eqb (row_id r0) article_id) l)
    with (@nil Row); [simpl; lia|].
  symmetry. clear IH Hl Hnd. induction l as [|r' l IH]; [reflexivity|].
  simpl in *. destruct (String.eqb (row_id r') article_id) eqn:E'.
  - apply String.eqb_eq in E'. exfalso. apply Hnotin. left. congruence.
  - apply IH. intros Hin. apply Hnotin. now right.
Qed.

(** C8.  Recording an identifier makes [is_article_published] true for it
    at once; recording is an upsert: a second record of the same
    identifier replaces the first (and repeats nothing when its data are
    the same), leaving exactly one entry; and in every ledger written by
    records from the empty table, no identifier appears twice. *)
Theorem record_is_idempotent_upsert :
  forall (ledger : list Row) (article_id title title' : string)
         (pub_date pub_date' : Z) (records : list (string * string * Z)),
    (is_article_published
       (add_published_article ledger article_id title pub_date) article_id
     = true) /\
    (add_published_article
       (add_published_article ledger article_id title pub_date)
       article_id title pub_date
     = add_published_article ledger article_id title pub_date) /\
    (entries_of
       (add_published_article
          (add_published_article ledger article_id title pub_date)
          article_id title' pub_date') article_id = 1%nat) /\
    NoDup (map row_id (record_all records create_db)) /\
    (entries_of (record_all records create_db) article_id <= 1)%nat.
Proof.
  intros ledger article_id title title' pub_date pub_date' records.
  assert (Hnd : NoDup (map row_id (record_all records create_db))).
  { apply record_all_unique. constructor. }
  repeat split.
  - apply is_published_after_add.
  - apply add_twice.
  - apply entries_after_add.
  - exact Hnd.
  - now apply unique_ids_entries.
Qed.

(** ** The cadence gate *)

Lemma min_by_distance_spec current_hour rest : forall best,
  In (min_by_distance current_hour best rest) (best :: rest) /\
  forall h, In h (best :: rest) ->
    Z.abs (min_by_distance current_hour best rest - current_hour)
    <= Z.abs (h - current_hour).
Proof.
  induction rest as [|x rest IH]; intros best; simpl.
  - split; [now left|]. intros h [<- | []]. lia.
  - destruct (Z.abs (x - current_hour) <? Z.abs (best - current_hour)) eqn:E.
    + apply Z.ltb_lt in E. destruct (IH x) as [Hin Hmin]. split.
      * right. exact Hin.
      * intros h [<- | Hh]; [|now apply Hmin].
        specialize (Hmin x (or_introl eq_refl)). lia.
    + apply Z.ltb_ge in E. destruct (IH best) as [Hin Hmin]. split.
      * destruct Hin as [Hin | Hin]; [now left | right; now right].
      * intros h [<- | [<- | Hh]].
        -- apply Hmin. now left.
        -- specialize (Hmin best (or_introl eq_refl)). lia.
        -- apply Hmin. now right.
Qed.

Lemma py_max_Qmax a b : (py_max a b == Qmax a b)%Q.
Proof.
  unfold py_max. destruct (Qltb a b) eqn:E.
  - apply Qltb_lt in E. symmetry. apply Q.max_r. now apply Qlt_le_weak.
  - symmetry. apply Q.max_l. apply Qnot_lt_le. intros H.
    apply Qltb_lt in H. congruence.
Qed.

(** C9.  On a profile with at least one hour, [should_publish_now] always
    returns: true when the current hour is one of the profile's hours;
    otherwise true exactly when the random draw is below
    [max(0.2 - 0.01 * d, 0.05)], [d] being the distance from the current
    hour to the nearest hour of the profile. *)
Theorem should_publish_now_spec :
  forall (hours : list Z) (current_hour : Z) (draw : Q),
    hours <> [] ->
    exists (d : Z) (answer : bool),
      nearest_distance hours current_hour d /\
      should_publish_now hours current_hour draw = Some answer /\
      (In current_hour hours -> answer = true) /\
      (~ In current_hour hours ->
       (answer = true <->
        (draw < Qmax (0.2 - 0.01 * inject_Z d) 0.05)%Q)).
Proof.
  intros hours current_hour draw Hne.
  destruct hours as [|h rest]; [congruence|].
  destruct (min_by_distance_spec current_hour rest h) as [Hin Hmin].
  exists (Z.abs (min_by_distance current_hour h rest - current_hour)).
  unfold should_publish_now.
  destruct (existsb (Z.eqb current_hour) (h :: rest)) eqn:E.
  - exists true. split; [|split; [reflexivity|split; [reflexivity|]]].
    + split; [|exact Hmin]. eexists; split; [exact Hin|reflexivity].
    + intros Hnot. exfalso. apply Hnot.
      apply existsb_exists in E. destruct E as [x [Hx Heq]].
      apply Z.eqb_eq in Heq. now subst.
  - eexists. split; [|split; [reflexivity|split]].
    + split; [|exact Hmin]. eexists; split; [exact Hin|reflexivity].
    + intros Hc. exfalso.
      assert (existsb (Z.eqb current_hour) (h :: rest) = true) as E'.
      { apply existsb_exists. exists current_hour. split; [exact Hc|].
        apply Z.eqb_refl. }
      congruence.
    + intros _. rewrite Qltb_lt, py_max_Qmax.
      set (d := inject_Z _).
      assert (Hq : (0.2 - d * 0.01 == 0.2 - 0.01 * d)%Q) by ring.
      now rewrite Hq.
Qed.

Lemma should_publish_now_spec_witness :
  [9; 12; 15; 18; 21] <> [] /\
  exists (d : Z) (answer : bool),
    nearest_distance [9; 12; 15; 18; 21] 10 d /\
    should_publish_now [9; 12; 15; 18; 21] 10 0.1 = Some answer /\
    (In 10 [9; 12; 15; 18; 21] -> answer = true) /\
    (~ In 10 [9; 12; 15; 18; 21] ->
     (answer = true <-> (0.1 < Qmax (0.2 - 0.01 * inject_Z d) 0.05)%Q)).
Proof.
  split; [discriminate|].
  apply (should_publish_now_spec [9; 12; 15; 18; 21] 10 0.1). discriminate.
Defined.

(** ** Dampening of categories outside the priority set *)

Section DampeningFacts.
Context {ext : Externals}.

Lemma event_fold (m : EventRow -> bool) (l : list EventRow) : forall s : Q,
  (fold_left (fun score event => if m event then score + 0.5 else score) l s
   == s + fold_right (fun event acc => if m event then acc + 0.5 else acc)
                     0 l)%Q.
Proof.
  induction l as [|e l IH]; intros s; simpl.
  - ring.
  - rewrite IH. destruct (m e); ring.
Qed.

(** The score of a categorised article is its base, the weight of the
    category or a tenth of it, plus the additive signals. *)
Lemma score_decomposition priority events now article title summary c :
  categorize_article (title ++ " " ++ summary) = Some c ->
  (calculate_interest_score_with priority events now article title summary
   == (if str_in c priority
       then weights_get category_weights c
       else weights_get category_weights c * 0.1)
      + additive_signals events now article title summary)%Q.
Proof.
  intros Hcat. unfold calculate_interest_score_with, additive_signals.
  rewrite Hcat. cbv zeta. unfold event_bonus.
  destruct (str_in c priority); cbn [negb];
    match goal with
    | |- context [fold_left _ ?l ?s] =>
        pose proof
          (event_fold
             (fun event =>
                existsb (fun keyword =>
                           contains (lower keyword)
                                    (lower (title ++ " " ++ summary)))
                        (split_comma (ev_keywords event))) l s) as HF;
        cbv beta in HF
    end;
    match type of HF with
    | (?lhs == _ + ?rhs)%Q => set (F := lhs) in *; set (bonus := rhs) in *
    end;
    destruct ((now - a_pub_date article) / 86400 =? 0);
    destruct ((now - a_pub_date article) / 86400 <=? 2);
    destruct (existsb _ PRIORITY_SOURCES);
    destruct (1000 <? py_len (title ++ " " ++ summary));
    destruct (500 <? py_len (title ++ " " ++ summary));
    destruct (existsb _ _); lra.
Qed.

Lemma str_in_head c l : str_in c (c :: l) = true.
Proof. unfold str_in. simpl. now rewrite String.eqb_refl. Qed.

(** C4, as the code has it.  For an article whose category [c] is outside
    the priority set, the score is a tenth of the category weight plus the
    additive signals, and the score it would have with [c] in the priority
    set is the whole weight plus the same signals.  So the score is at
    most a tenth of that other score exactly when the additive signals sum
    to 0 or less. *)
Theorem dampening_relation :
  forall (events : list EventRow) (now : Z) (article : Article)
         (title summary c : string),
    categorize_article (title ++ " " ++ summary) = Some c ->
    str_in c PRIORITY_CATEGORIES = false ->
    let w := weights_get category_weights c in
    let signals := additive_signals events now article title summary in
    let score := calculate_interest_score events now article title summary in
    let score_if_priority :=
      calculate_interest_score_with (c :: PRIORITY_CATEGORIES)
                                    events now article title summary in
    (score == 0.1 * w + signals)%Q /\
    (score_if_priority == w + signals)%Q /\
    ((score <= 0.1 * score_if_priority)%Q <-> (signals <= 0)%Q).
Proof.
  intros events now article title summary c Hcat Hout w signals score
         score_if_priority.
  assert (H1 : (score == 0.1 * w + signals)%Q).
  { unfold score, calculate_interest_score.
    rewrite (score_decomposition _ _ _ _ _ _ c Hcat), Hout.
    fold w signals. ring. }
  assert (H2 : (score_if_priority == w + signals)%Q).
  { unfold score_if_priority.
    rewrite (score_decomposition _ _ _ _ _ _ c Hcat), str_in_head.
    fold w signals. ring. }
  split; [exact H1|]. split; [exact H2|].
  rewrite H1, H2. split; intros H; lra.
Qed.

End DampeningFacts.

Lemma dampening_relation_witness :
  @categorize_article plain_externals
     ("Space station gets a new module" ++ " " ++ "") = Some "космос" /\
  str_in "космос" PRIORITY_CATEGORIES = false /\
  (@calculate_interest_score plain_externals [] 0 space_article
      "Space station gets a new module" ""
   == 0.1 * weights_get category_weights "космос"
      + @additive_signals plain_externals [] 0 space_article
          "Space station gets a new module" "")%Q.
Proof.
  assert (Hcat : @categorize_article plain_externals
            ("Space station gets a new module" ++ " " ++ "") = Some "космос")
    by (vm_compute; reflexivity).
  assert (Hout : str_in "космос" PRIORITY_CATEGORIES = false)
    by (vm_compute; reflexivity).
  split; [exact Hcat|]. split; [exact Hout|].
  exact (proj1 (@dampening_relation plain_externals [] 0 space_article
                  "Space station gets a new module" "" "космос" Hcat Hout)).
Defined.

(** C4 as stated fails: an article on space flight, a category outside the
    priority set, published today by a priority source scores 0.71, more
    than a tenth of the 2.6 it would score in a priority category. *)
Lemma dampening_bound_fails :
  @categorize_article plain_externals
     ("Space station gets a new module" ++ " " ++ "") = Some "космос" /\
  str_in "космос" PRIORITY_CATEGORIES = false /\
  ~ (@calculate_interest_score plain_externals [] 0 space_article
        "Space station gets a new module" ""
     <= 0.1 * @calculate_interest_score_with plain_externals
                ("космос" :: PRIORITY_CATEGORIES) [] 0 space_article
                "Space station gets a new module" "")%Q.
Proof.
  split; [vm_compute; reflexivity|]. split; [vm_compute; reflexivity|].
  intros H. apply Qle_bool_iff in H. vm_compute in H. discriminate.
Qed.

(** ** The selector *)

Lemma insert_desc_perm x l : Permutation (insert_desc x l) (x :: l).
Proof.
  induction l as [|y l IH]; simpl; [reflexivity|].
  destruct (Qltb (interest_score x) (interest_score y)); [|reflexivity].
  rewrite IH. apply perm_swap.
Qed.

Lemma sorted_desc_perm articles : Permutation (sorted_desc articles) articles.
Proof.
  induction articles as [|a l IH]; simpl; [reflexivity|].
  rewrite insert_desc_perm. now constructor.
Qed.

Lemma insert_desc_sorted x l :
  StronglySorted score_ge l -> StronglySorted score_ge (insert_desc x l).
Proof.
  induction l as [|y l IH]; simpl; intros Hs.
  - repeat constructor.
  - inversion Hs as [|y' l' Hl Hy]; subst.
    destruct (Qltb (interest_score x) (interest_score y)) eqn:E.
    + constructor; [now apply IH|].
      apply (Permutation_Forall (Permutation_sym (insert_desc_perm x l))).
      constructor; [|exact Hy].
      apply Qltb_lt in E. unfold score_ge. now apply Qlt_le_weak.
    + assert (Hyx : (interest_score y <= interest_score x)%Q).
      { apply Qnot_lt_le. intros H. apply Qltb_lt in H. congruence. }
      constructor; [exact Hs|]. constructor; [exact Hyx|].
      eapply Forall_impl; [|exact Hy].
      intros z Hz. unfold score_ge in *. now apply Qle_trans with (interest_score y).
Qed.

Lemma sorted_desc_sorted articles : StronglySorted score_ge (sorted_desc articles).
Proof.
  induction articles as [|a l IH]; simpl; [constructor|].
  now apply insert_desc_sorted.
Qed.

(** The sort is stable: articles of one score keep their order. *)
Lemma insert_desc_stable v x l :
  filter (fun a => Qeq_bool (interest_score a) v) (insert_desc x l)
  = filter (fun a => Qeq_bool (interest_score a) v) (x :: l).
Proof.
  induction l as [|y l IH]; [reflexivity|].
  cbn [insert_desc].
  destruct (Qltb (interest_score x) (interest_score y)) eqn:E; [|reflexivity].
  apply Qltb_lt in E. cbn [filter] in *. rewrite IH.
  destruct (Qeq_bool (interest_score x) v) eqn:Ex;
    destruct (Qeq_bool (interest_score y) v) eqn:Ey; try reflexivity.
  apply Qeq_bool_iff in Ex, Ey. rewrite Ex, Ey in E.
  exfalso. exact (Qlt_irrefl _ E).
Qed.

Lemma sorted_desc_stable v articles :
  filter (fun a => Qeq_bool (interest_score a) v) (sorted_desc articles)
  = filter (fun a => Qeq_bool (interest_score a) v) articles.
Proof.
  induction articles as [|a l IH]; [reflexivity|].
  cbn [sorted_desc fold_right]. fold (sorted_desc l).
  rewrite insert_desc_stable. cbn [filter]. now rewrite IH.
Qed.

Lemma remove_at_perm {A} (d : A) : forall (l : list A) (i : nat),
  (i < List.length l)%nat -> Permutation (nth i l d :: remove_at i l) l.
Proof.
  induction l as [|x l IH]; intros i Hi; simpl in Hi; [lia|].
  destruct i as [|j]; simpl; [reflexivity|].
  rewrite perm_swap. constructor. apply IH. lia.
Qed.

Lemma remove_at_length {A} : forall (l : list A) (i : nat),
  (i < List.length l)%nat ->
  S (List.length (remove_at i l)) = List.length l.
Proof.
  induction l as [|x l IH]; intros i Hi; simpl in Hi; [lia|].
  destruct i as [|j]; simpl; [reflexivity|].
  rewrite IH; [reflexivity | lia].
Qed.

(** A sample of [k] items has [k] items, at distinct positions of the
    population, whatever the draws. *)
Lemma random_sample_spec {A} : forall (k : nat) (population : list A)
    (draws : list nat),
  (k <= List.length population)%nat ->
  List.length (random_sample population k draws) = k /\
  drawn_without_replacement (random_sample population k draws) population.
Proof.
  induction k as [|k IH]; intros population draws Hk.
  - split; [reflexivity|]. now exists population.
  - destruct population as [|x0 rest]; [simpl in Hk; lia|].
    cbn [random_sample].
    set (pool := x0 :: rest) in *.
    set (i := (hd O draws mod List.length pool)%nat).
    assert (Hi : (i < List.length pool)%nat).
    { apply Nat.mod_upper_bound. subst pool. simpl. lia. }
    pose proof (remove_at_length pool i Hi) as Hlen.
    destruct (IH (remove_at i pool) (tl draws)) as [Hl [others Hperm]];
      [lia|].
    split; [cbn [List.length]; now rewrite Hl|].
    exists others. cbn [app]. rewrite Hperm. now apply remove_at_perm.
Qed.

(** For fewer than 90 requested items the number of top items is
    [7 * n / 10] rounded down; at 90 the binary product falls just short
    of 63. *)
Lemma top_count_below_90 n :
  (n < 90)%nat -> top_count n = (7 * n / 10)%nat.
Proof.
  intros Hn.
  assert (H : forallb (fun m => Nat.eqb (top_count m) (7 * m / 10))
                      (seq 0 90) = true) by (vm_compute; reflexivity).
  rewrite forallb_forall in H. apply Nat.eqb_eq. apply H.
  apply in_seq. lia.
Qed.

Lemma top_count_90 : top_count 90 = 62%nat.
Proof. vm_compute. reflexivity. Qed.

(** The shape of a selection: the head of the sort, then a sample of the
    rest. *)
Lemma selection_facts articles n draws :
  let sorted_articles := sorted_desc articles in
  let quality := firstn (top_count n) sorted_articles in
  let others :=
    filter (fun a => negb (existsb (processed_eqb a) quality))
           sorted_articles in
  Permutation sorted_articles articles /\
  exists picks,
    select_interesting_articles articles n draws = (quality ++ picks)%list /\
    drawn_without_replacement picks others.
Proof.
  intros sorted_articles quality others.
  split; [apply sorted_desc_perm|].
  unfold select_interesting_articles.
  fold sorted_articles. fold quality. fold others.
  destruct others as [|o os] eqn:E.
  - exists []. split; [now rewrite app_nil_r|]. now exists [].
  - rewrite <- E.
    destruct (random_sample_spec
                (Nat.min (List.length others) (n - top_count n)) others draws)
      as [_ Hdrawn]; [lia|].
    eexists. split; [reflexivity|]. assumption.
Qed.

(** C5, as the code has it.  The selection starts with the first
    [int(num_to_select * 0.7)] articles of the stable descending sort by
    score: the product is rounded down, not up.  It goes on with articles
    drawn without replacement from those of the sort that equal none of
    the first, as many as [num_to_select] leaves room for and the rest
    can supply. *)
Theorem selection_shape :
  forall (articles : list ProcessedArticle) (num_to_select : nat)
         (draws : list nat),
    let sorted_articles := sorted_desc articles in
    let quality := firstn (top_count num_to_select) sorted_articles in
    let others :=
      filter (fun a => negb (existsb (processed_eqb a) quality))
             sorted_articles in
    Permutation sorted_articles articles /\
    StronglySorted score_ge sorted_articles /\
    exists picks,
      select_interesting_articles articles num_to_select draws
      = (quality ++ picks)%list /\
      List.length picks
      = Nat.min (List.length others) (num_to_select - top_count num_to_select) /\
      drawn_without_replacement picks others.
Proof.
  intros articles n draws sorted_articles quality others.
  split; [apply sorted_desc_perm|]. split; [apply sorted_desc_sorted|].
  unfold select_interesting_articles.
  fold sorted_articles. fold quality. fold others.
  destruct others as [|o os] eqn:E.
  - exists []. split; [now rewrite app_nil_r|]. split; [reflexivity|].
    now exists [].
  - rewrite <- E.
    destruct (random_sample_spec
                (Nat.min (List.length others) (n - top_count n)) others draws)
      as [Hlen Hdrawn]; [lia|].
    eexists. split; [reflexivity|]. split; assumption.
Qed.

(** C5 as stated fails: of six articles scored 9 to 4, a selection of 5
    takes the top 3, not the top [ceil(5 * 0.7) = 4]; the fourth is left
    to chance, and these draws pass it over. *)
Lemma quality_set_is_not_ceil :
  ceil_count 5 = 4%nat /\ top_count 5 = 3%nat /\
  select_interesting_articles six_scored 5 [1; 1]%nat
  = [scored "a" 9; scored "b" 8; scored "c" 7; scored "e" 5; scored "f" 4] /\
  ~ incl (firstn (ceil_count 5) (sorted_desc six_scored))
         (select_interesting_articles six_scored 5 [1; 1]%nat).
Proof.
  split; [vm_compute; reflexivity|]. split; [vm_compute; reflexivity|].
  assert (Hsel : select_interesting_articles six_scored 5 [1; 1]%nat
                 = [scored "a" 9; scored "b" 8; scored "c" 7;
                    scored "e" 5; scored "f" 4])
    by (vm_compute; reflexivity).
  split; [exact Hsel|].
  intros Hincl. specialize (Hincl (scored "d" 6)).
  rewrite Hsel in Hincl.
  assert (Hin : In (scored "d" 6) (firstn (ceil_count 5) (sorted_desc six_scored))).
  { vm_compute. tauto. }
  specialize (Hincl Hin). simpl in Hincl.
  repeat (destruct Hincl as [Hincl | Hincl]; [discriminate Hincl|]).
  exact Hincl.
Qed.

(** ** Candidates and the ledger *)

Lemma fetch_feed_unpublished l entries :
  Forall (unpublished_article l) (fetch_feed l entries).
Proof.
  unfold fetch_feed. apply Forall_forall. intros a Hin.
  apply in_flat_map in Hin. destruct Hin as [entry [_ Hin]].
  destruct entry as [article|]; [|destruct Hin].
  destruct (is_article_published l (a_id article)) eqn:E; simpl in Hin.
  - destruct Hin.
  - destruct Hin as [<- | []]. exact E.
Qed.

Lemma fetch_articles_unpublished l fetched :
  Forall (unpublished_article l) (fetch_articles l fetched).
Proof.
  unfold fetch_articles. apply Forall_forall. intros a Hin.
  apply in_flat_map in Hin. destruct Hin as [entries [_ Hin]].
  pose proof (fetch_feed_unpublished l entries) as H.
  rewrite Forall_forall in H. now apply H.
Qed.

Lemma select_incl articles n draws :
  incl (select_interesting_articles articles n draws) articles.
Proof.
  intros a Hin.
  destruct (selection_facts articles n draws) as [Hperm [picks [Hsel Hdrawn]]].
  rewrite Hsel in Hin. apply in_app_or in Hin.
  apply (Permutation_in a Hperm).
  destruct Hin as [Hin | Hin].
  - rewrite <- (firstn_skipn (top_count n) (sorted_desc articles)).
    apply in_or_app. now left.
  - destruct Hdrawn as [rest Hrest].
    assert (In a (picks ++ rest)) as H by (apply in_or_app; now left).
    apply (Permutation_in a Hrest) in H. now apply filter_In in H.
Qed.

Section PlanFacts.
Context {ext : Externals}.

Lemma process_articles_unpublished l evs now articles :
  Forall (unpublished_article l) articles ->
  Forall (unpublished l) (process_articles evs now articles).
Proof.
  induction 1 as [|a rest Ha Hrest IH]; simpl; constructor; assumption.
Qed.

(** C6.  In a cycle, the articles fetched for scoring, the processed
    articles, the articles kept for publication and any selection made
    among them all have identifiers that the ledger does not hold: the
    filter against the ledger is applied when the feeds are read. *)
Theorem published_never_reach_selection :
  forall (w : World) (fetched : list (list (option Article)))
         (num_to_select : nat) (draws : list nat),
    Forall (unpublished_article (ledger w))
           (fetch_articles (ledger w) fetched) /\
    Forall (unpublished (ledger w))
           (process_articles (events w) (clock w)
              (fetch_articles (ledger w) fetched)) /\
    Forall (unpublished (ledger w)) (interesting_articles w fetched) /\
    Forall (unpublished (ledger w))
           (select_interesting_articles (interesting_articles w fetched)
              num_to_select draws).
Proof.
  intros w fetched n draws.
  pose proof (fetch_articles_unpublished (ledger w) fetched) as Hf.
  pose proof (process_articles_unpublished _ (events w) (clock w) _ Hf) as Hp.
  assert (Hi : Forall (unpublished (ledger w)) (interesting_articles w fetched)).
  { unfold interesting_articles. rewrite Forall_forall in *.
    intros p Hin. apply filter_In in Hin. now apply Hp. }
  repeat split; try assumption.
  rewrite Forall_forall in *. intros p Hin.
  apply Hi. eapply select_incl. exact Hin.
Qed.

End PlanFacts.

(** ** Time only moves forward *)

Lemma advance_clock w dt : clock w <= clock (advance w dt).
Proof. simpl. lia. Qed.

Lemma publish_to_telegram_clock w a d :
  clock w <= clock (fst (publish_to_telegram w a d)).
Proof.
  unfold publish_to_telegram.
  destruct (category a); [|simpl; lia].
  destruct (send_result d); simpl; lia.
Qed.

Lemma publish_loop_clock articles : forall w published_count last ds,
  clock w <= clock (fst (publish_loop w published_count last articles ds)).
Proof.
  induction articles as [|a rest IH]; intros w n last ds;
    cbn [publish_loop]; [simpl; lia|].
  destruct (MAX_PUBLICATIONS_PER_HOUR <=? n); [simpl; lia|].
  cbv zeta.
  set (d := hd no_delivery ds).
  set (w1 := advance w (pre_delay d)).
  assert (H1 : clock w <= clock w1) by apply advance_clock.
  set (w2 := match last with
             | Some l =>
                 if clock w1 - l <? MIN_PUBLICATION_INTERVAL * 60
                 then advance w1 (l + MIN_PUBLICATION_INTERVAL * 60 - clock w1)
                 else w1
             | None => w1
             end).
  assert (H2 : clock w1 <= clock w2).
  { subst w2. destruct last as [l|]; [|lia].
    destruct (clock w1 - l <? MIN_PUBLICATION_INTERVAL * 60);
      [apply advance_clock | lia]. }
  destruct (is_article_published (ledger w2) (p_id a)); cbn [negb].
  - etransitivity; [|apply IH]. lia.
  - pose proof (publish_to_telegram_clock w2 a d) as H3.
    destruct (publish_to_telegram w2 a d) as [w3 mid]. simpl in H3.
    destruct mid as [m|].
    + destruct (m =? 0); cbn [negb].
      * etransitivity; [|apply IH]. lia.
      * etransitivity; [|apply IH]. simpl. lia.
    + etransitivity; [|apply IH]. lia.
Qed.

Section RunningFacts.
Context {ext : Externals}.

Lemma process_and_publish_clock b w i :
  clock w <= clock (snd (fst (process_and_publish b w i))).
Proof.
  unfold process_and_publish.
  destruct (should_publish_now _ _ _) as [[|]|]; cbn [fst snd]; try lia.
  destruct (fetch_articles (ledger w) (feeds i)); cbn [fst snd]; try lia.
  destruct (interesting_articles w (feeds i)) as [|p ps] eqn:E;
    cbn [fst snd]; try lia.
  pose proof (publish_loop_clock (p :: ps) w 0 None (deliveries i)) as H.
  destruct (publish_loop w 0 None (p :: ps) (deliveries i)) as [w' n].
  cbn [fst snd] in *. exact H.
Qed.

Lemma step_clock s c : clock (world s) <= clock (world (step s c)).
Proof.
  destruct c as [i|h| | |dt]; cbn [step world bot];
    try lia; [|apply advance_clock].
  unfold run_scheduled_job.
  destruct (is_paused (bot s) (clock (world s))); cbn [world]; [lia|].
  pose proof (process_and_publish_clock (bot s) (world s) i) as H.
  destruct (process_and_publish (bot s) (world s) i) as [[b w] r].
  cbn [fst snd world] in *. exact H.
Qed.

Lemma run_clock cs : forall s, clock (world s) <= clock (world (run s cs)).
Proof.
  induction cs as [|c cs IH]; intros s; simpl; [lia|].
  etransitivity; [apply step_clock|]. apply IH.
Qed.

(** ** The job, pass by pass *)

Lemma publish_one_clock w n last a d :
  clock w <= clock (fst (fst (publish_one w n last a d))).
Proof.
  unfold publish_one. cbv zeta.
  pose proof (advance_clock w (pre_delay d)) as H1.
  set (w1 := advance w (pre_delay d)) in *.
  set (w2 := match last with
             | Some l =>
                 if clock w1 - l <? MIN_PUBLICATION_INTERVAL * 60
                 then advance w1
                        (l + MIN_PUBLICATION_INTERVAL * 60 - clock w1)
                 else w1
             | None => w1
             end).
  assert (H2 : clock w1 <= clock w2).
  { subst w2. destruct last as [l|]; [|lia].
    destruct (clock w1 - l <? MIN_PUBLICATION_INTERVAL * 60);
      [apply advance_clock | lia]. }
  destruct (is_article_published (ledger w2) (p_id a)); cbn [negb fst];
    [lia|].
  pose proof (publish_to_telegram_clock w2 a d) as H3.
  destruct (publish_to_telegram w2 a d) as [w3 [m|]]; cbn [fst] in *;
    [|lia].
  destruct (m =? 0); cbn [negb fst]; [lia | simpl; lia].
Qed.

(** The loop of [process_and_publish] is its first pass followed by the
    loop on the other articles. *)
Lemma publish_loop_pass w n last a rest ds :
  publish_loop w n last (a :: rest) ds =
  if MAX_PUBLICATIONS_PER_HOUR <=? n then (w, n)
  else let '(w', n', last') := publish_one w n last a (hd no_delivery ds) in
       publish_loop w' n' last' rest (tl ds).
Proof.
  cbn [publish_loop]. unfold publish_one.
  destruct (MAX_PUBLICATIONS_PER_HOUR <=? n); [reflexivity|]. cbv zeta.
  destruct (negb (is_article_published _ _)); [|reflexivity].
  destruct (publish_to_telegram _ _ _) as [w3 [m|]]; [|reflexivity].
  destruct (negb (m =? 0)); reflexivity.
Qed.

Lemma loops_when_idle n : forall p,
  job p = None -> moves p (repeat SchedulerLoops n) = p.
Proof.
  induction n as [|n IH]; intros p H; [reflexivity|].
  change (moves p (repeat SchedulerLoops (S n)))
    with (moves (move p SchedulerLoops) (repeat SchedulerLoops n)).
  cbn [move]. rewrite H. now apply IH.
Qed.

(** Left to itself, the loop taken pass by pass is [publish_loop]. *)
Lemma loop_runs_out articles : forall s n last ds k,
  (List.length articles < k)%nat ->
  moves {| system := s;
           job := Some {| published_count := n;
                          last_publication_time := last;
                          remaining_articles := articles;
                          remaining_deliveries := ds |} |}
        (repeat SchedulerLoops k)
  = job_returns
      {| bot := bot s;
         world := fst (publish_loop (world s) n last articles ds);
         results := results s |}
      (bot s) (Completed (snd (publish_loop (world s) n last articles ds))).
Proof.
  induction articles as [|a rest IH]; intros s n last ds k Hk;
    (destruct k as [|k]; [simpl in Hk; lia|]);
    change (repeat SchedulerLoops (S k))
      with (SchedulerLoops :: repeat SchedulerLoops k);
    unfold moves; cbn [fold_left]; fold (moves);
    cbn [move job system next_article remaining_articles published_count
         last_publication_time remaining_deliveries].
  - change (fold_left move (repeat SchedulerLoops k) ?p)
      with (moves p (repeat SchedulerLoops k)).
    rewrite loops_when_idle by reflexivity.
    destruct s; reflexivity.
  - rewrite publish_loop_pass.
    destruct (MAX_PUBLICATIONS_PER_HOUR <=? n).
    + change (fold_left move (repeat SchedulerLoops k) ?p)
        with (moves p (repeat SchedulerLoops k)).
      rewrite loops_when_idle by reflexivity.
      destruct s; reflexivity.
    + destruct (publish_one (world s) n last a (hd no_delivery ds))
        as [[w' n'] last'].
      change (fold_left move (repeat SchedulerLoops k) ?p)
        with (moves p (repeat SchedulerLoops k)).
      rewrite IH by (simpl in Hk; lia). reflexivity.
Qed.

(** A job that no other thread meets is the job of [step]: the scheduler
    starts it and comes to the head of the loop once more than there are
    articles to publish. *)
Lemma whole_job s i k :
  (List.length (interesting_articles (world s) (feeds i)) < k)%nat ->
  moves (idle s) (SchedulerStarts i :: repeat SchedulerLoops k)
  = idle (step s (Tick i)).
Proof.
  intros Hk.
  change (moves (idle s) (SchedulerStarts i :: repeat SchedulerLoops k))
    with (moves (start_job s i) (repeat SchedulerLoops k)).
  unfold start_job, idle. cbn [step]. unfold run_scheduled_job.
  destruct (is_paused (bot s) (clock (world s)));
    [now rewrite loops_when_idle|].
  unfold process_and_publish.
  destruct (should_publish_now _ _ _) as [[|]|];
    try (now rewrite loops_when_idle).
  destruct (fetch_articles (ledger (world s)) (feeds i));
    [now rewrite loops_when_idle|].
  destruct (interesting_articles (world s) (feeds i)) as [|p ps] eqn:E;
    [now rewrite loops_when_idle|].
  rewrite loop_runs_out by exact Hk.
  destruct (publish_loop (world s) 0 None (p :: ps) (deliveries i))
    as [w' c].
  reflexivity.
Qed.

Lemma move_clock p m :
  clock (world (system p)) <= clock (world (system (move p m))).
Proof.
  destruct m as [i| |h| | |dt]; cbn [move elsewhere system];
    try apply step_clock.
  - destruct (job p); [lia|]. unfold start_job, job_returns.
    destruct (is_paused _ _); cbn [system world]; [lia|].
    destruct (should_publish_now _ _ _) as [[|]|]; cbn [system world];
      try lia.
    destruct (fetch_articles _ _); cbn [system world]; try lia.
    destruct (interesting_articles _ _); cbn [system world]; lia.
  - destruct (job p) as [l|]; [|lia]. unfold next_article, job_returns.
    destruct (remaining_articles l) as [|a rest]; cbn [system world];
      [lia|].
    destruct (MAX_PUBLICATIONS_PER_HOUR <=? _); cbn [system world]; [lia|].
    pose proof (publish_one_clock (world (system p)) (published_count l)
                  (last_publication_time l) a
                  (hd no_delivery (remaining_deliveries l))) as H.
    destruct (publish_one _ _ _ _ _) as [[w n] last].
    cbn [fst system world] in *. exact H.
Qed.

Lemma moves_clock ms : forall p,
  clock (world (system p)) <= clock (world (system (moves p ms))).
Proof.
  induction ms as [|m ms IH]; intros p; simpl; [lia|].
  etransitivity; [apply move_clock|]. apply IH.
Qed.

(** A pass of the loop does the same to the world whatever the bot
    holds: the fields of the pause are not read between the start of a
    job and its end. *)
Lemma loops_ignore_bot n : forall p q,
  world (system p) = world (system q) ->
  results (system p) = results (system q) ->
  job p = job q ->
  world (system (moves p (repeat SchedulerLoops n)))
  = world (system (moves q (repeat SchedulerLoops n))) /\
  results (system (moves p (repeat SchedulerLoops n)))
  = results (system (moves q (repeat SchedulerLoops n))) /\
  job (moves p (repeat SchedulerLoops n))
  = job (moves q (repeat SchedulerLoops n)).
Proof.
  induction n as [|n IH]; intros p q Hw Hr Hj; [now repeat split|].
  change (repeat SchedulerLoops (S n))
    with (SchedulerLoops :: repeat SchedulerLoops n).
  change (moves p (SchedulerLoops :: repeat SchedulerLoops n))
    with (moves (move p SchedulerLoops) (repeat SchedulerLoops n)).
  change (moves q (SchedulerLoops :: repeat SchedulerLoops n))
    with (moves (move q SchedulerLoops) (repeat SchedulerLoops n)).
  destruct p as [[bp wp rp] jp], q as [[bq wq rq] jq].
  cbn [system world results job] in Hw, Hr, Hj. subst wq rq jq.
  apply IH; cbn [move job system]; destruct jp as [l|];
    try reflexivity; unfold next_article, job_returns;
    cbn [world results bot];
    destruct (remaining_articles l); try reflexivity;
    destruct (MAX_PUBLICATIONS_PER_HOUR <=? _); try reflexivity;
    destruct (publish_one _ _ _ _ _) as [[w c] last]; reflexivity.
Qed.

(** ** Pause and resume *)

(** One move of a hands-off sequence, while the pause lasts and no job
    was under way when it began. *)
Lemma paused_move p m until :
  hands_off m = true ->
  job p = None ->
  pause_until (bot (system p)) = Some until ->
  pause_timer (bot (system p)) = Some until ->
  clock (world (system p)) < until ->
  job (move p m) = None /\
  bot (system (move p m)) = bot (system p) /\
  channel (world (system (move p m))) = channel (world (system p)) /\
  ledger (world (system (move p m))) = ledger (world (system p)) /\
  exists k, results (system (move p m))
            = (results (system p) ++ repeat SkippedPaused k)%list.
Proof.
  intros Hm Hj Hu Ht Hclock.
  destruct m as [i| |h| | |dt]; try discriminate Hm;
    cbn [move elsewhere system job step].
  - rewrite Hj. unfold start_job, is_paused. rewrite Hu.
    apply Z.ltb_lt in Hclock. rewrite Hclock. simpl.
    repeat split. now exists 1%nat.
  - rewrite Hj. repeat split; try assumption.
    exists O. simpl. now rewrite app_nil_r.
  - cbn [bot world results]. repeat split; try assumption;
      [|exists O; simpl; now rewrite app_nil_r].
    unfold timer_thread. rewrite Ht.
    destruct (until <=? clock (world (system p))) eqn:E; [|reflexivity].
    apply Z.leb_le in E. lia.
  - cbn [bot world results]. repeat split; try assumption.
    exists O. simpl. now rewrite app_nil_r.
Qed.

Lemma paused_moves ms : forall p until,
  forallb hands_off ms = true ->
  job p = None ->
  pause_until (bot (system p)) = Some until ->
  pause_timer (bot (system p)) = Some until ->
  clock (world (system (moves p ms))) < until ->
  job (moves p ms) = None /\
  bot (system (moves p ms)) = bot (system p) /\
  channel (world (system (moves p ms))) = channel (world (system p)) /\
  ledger (world (system (moves p ms))) = ledger (world (system p)) /\
  exists k, results (system (moves p ms))
            = (results (system p) ++ repeat SkippedPaused k)%list.
Proof.
  induction ms as [|m ms IH]; intros p until Hms Hj Hu Ht Hclock.
  - simpl. repeat split; try assumption.
    exists O. simpl. now rewrite app_nil_r.
  - simpl in Hms. apply andb_true_iff in Hms. destruct Hms as [Hm Hms].
    change (moves p (m :: ms)) with (moves (move p m) ms) in *.
    pose proof (moves_clock ms (move p m)) as Hmono.
    pose proof (move_clock p m) as Hmono1.
    destruct (paused_move p m until Hm Hj Hu Ht) as [Hj1 [Hb [Hch [Hl [k Hr]]]]];
      [lia|].
    destruct (IH (move p m) until Hms Hj1) as [Hj' [Hb' [Hch' [Hl' [k' Hr']]]]];
      try (rewrite Hb; assumption); [assumption|].
    repeat split; try congruence.
    exists (k + k')%nat. rewrite Hr', Hr, <- app_assoc, repeat_app.
    reflexivity.
Qed.

(** Without a new pause, the bot is held by the last pause or by none. *)
Lemma no_new_pause_move p m held :
  no_new_pause m = true ->
  pause_until (bot (system p)) = None \/ pause_until (bot (system p)) = held ->
  pause_until (bot (system (move p m))) = None \/
  pause_until (bot (system (move p m))) = held.
Proof.
  intros Hm H. destruct m as [i| |h| | |dt]; try discriminate Hm;
    cbn [move elsewhere system step bot].
  - destruct (job p); [exact H|]. unfold start_job, job_returns.
    destruct (is_paused _ _); [exact H|].
    destruct (should_publish_now _ _ _) as [[|]|]; try exact H.
    destruct (fetch_articles _ _); try exact H.
    destruct (interesting_articles _ _); exact H.
  - destruct (job p) as [l|]; [|exact H]. unfold next_article, job_returns.
    destruct (remaining_articles l); [exact H|].
    destruct (MAX_PUBLICATIONS_PER_HOUR <=? _); [exact H|].
    destruct (publish_one _ _ _ _ _) as [[w n] last]. exact H.
  - now left.
  - unfold timer_thread. destruct (pause_timer (bot (system p))); [|exact H].
    destruct (_ <=? _); [now left | exact H].
  - exact H.
Qed.

Lemma no_new_pause_moves ms : forall p held,
  forallb no_new_pause ms = true ->
  pause_until (bot (system p)) = None \/ pause_until (bot (system p)) = held ->
  pause_until (bot (system (moves p ms))) = None \/
  pause_until (bot (system (moves p ms))) = held.
Proof.
  induction ms as [|m ms IH]; intros p held Hms H; [exact H|].
  simpl in Hms. apply andb_true_iff in Hms. destruct Hms as [Hm Hms].
  change (moves p (m :: ms)) with (moves (move p m) ms).
  apply IH; [exact Hms|]. now apply no_new_pause_move.
Qed.

(** What a pause does do.  It sets the end of the pause and the timer to
    the same instant, whatever timer was pending.  When no job is under
    way at that moment, then as long as the clock is short of that
    instant and the administrator neither resumes nor pauses again, every
    job that the scheduler starts is skipped, and nothing is published or
    recorded.  After [resume], and after the end of the pause with or
    without a resume or a run of the timer, the bot is not paused, until
    the next pause. *)
Lemma pause_holds_between_jobs :
  forall (p : Process) (hours : Z),
    let expiry := clock (world (system p)) + hours * 3600 in
    let paused := move p (AdminPauses hours) in
    (pause_until (bot (system paused)) = Some expiry /\
     pause_timer (bot (system paused)) = Some expiry) /\
    (job p = None ->
     forall ms,
       forallb hands_off ms = true ->
       clock (world (system (moves paused ms))) < expiry ->
       is_paused (bot (system (moves paused ms)))
                 (clock (world (system (moves paused ms)))) = true /\
       job (moves paused ms) = None /\
       channel (world (system (moves paused ms)))
       = channel (world (system p)) /\
       ledger (world (system (moves paused ms)))
       = ledger (world (system p)) /\
       exists k, results (system (moves paused ms))
                 = (results (system p) ++ repeat SkippedPaused k)%list) /\
    (forall ms ms',
        forallb no_new_pause ms' = true ->
        let resumed := moves (move (moves paused ms) AdminResumes) ms' in
        is_paused (bot (system resumed)) (clock (world (system resumed)))
        = false) /\
    (forall ms,
        forallb no_new_pause ms = true ->
        expiry <= clock (world (system (moves paused ms))) ->
        is_paused (bot (system (moves paused ms)))
                  (clock (world (system (moves paused ms)))) = false).
Proof.
  intros p hours expiry paused.
  assert (Hu : pause_until (bot (system paused)) = Some expiry)
    by reflexivity.
  assert (Ht : pause_timer (bot (system paused)) = Some expiry)
    by reflexivity.
  split; [now split|]. split; [|split].
  - intros Hj ms Hms Hclock.
    assert (Hj' : job paused = None) by exact Hj.
    destruct (paused_moves ms paused expiry Hms Hj' Hu Ht Hclock)
      as [Hj2 [Hb [Hch [Hl Hr]]]].
    repeat split; try assumption.
    unfold is_paused. rewrite Hb, Hu. now apply Z.ltb_lt.
  - intros ms ms' Hms' resumed.
    destruct (no_new_pause_moves ms' (move (moves paused ms) AdminResumes)
                None Hms')
      as [H | H]; [now left | |]; unfold is_paused; fold resumed in H;
      now rewrite H.
  - intros ms Hms Hclock.
    destruct (no_new_pause_moves ms paused (Some expiry) Hms) as [H | H];
      [now right | |]; unfold is_paused; rewrite H; [reflexivity|].
    now apply Z.ltb_ge.
Qed.

End RunningFacts.

(** ** The publication loop on concrete cycles *)

Example pause_then_expiry :
  results (@run plain_externals fresh_system
             [Pause 1; Elapse 1800; Tick (cycle_of [["a1"]]);
              Elapse 1800; Tick (cycle_of [["a1"]])])
  = [SkippedPaused; Completed 1].
Proof. vm_compute. reflexivity. Qed.

(** C7, on the code.  A pause sets [pause_until], but only
    [run_scheduled_job] reads it, once, before a job begins: the loop of
    a job under way goes on as if no pause had been made, for every
    state of the bot and every length of pause.  So with three fresh
    articles, the first delivered at 32401 and a pause of one hour made
    right after it, the second and the third are delivered at 32581 and
    32582, while the bot is paused until 36001.  The same pause made
    before the job begins has the job skipped and nothing published. *)
Theorem pause_does_not_stop_running_cycle :
  (forall (ext : Externals) (p : Process) (hours : Z) (n : nat),
      let paused := @move ext p (AdminPauses hours) in
      let later := @moves ext paused (repeat SchedulerLoops n) in
      let unpaused := @moves ext p (repeat SchedulerLoops n) in
      world (system later) = world (system unpaused) /\
      results (system later) = results (system unpaused) /\
      job later = job unpaused) /\
  let cycle := cycle_of [["a1"; "a2"; "a3"]] in
  let before :=
    @moves plain_externals (idle fresh_system)
           [SchedulerStarts cycle; SchedulerLoops] in
  let paused := @move plain_externals before (AdminPauses 1) in
  let after :=
    @moves plain_externals paused
           [SchedulerLoops; SchedulerLoops; SchedulerLoops] in
  let held :=
    @moves plain_externals (idle fresh_system)
           [AdminPauses 1; SchedulerStarts cycle; SchedulerLoops;
            SchedulerLoops; SchedulerLoops; SchedulerLoops] in
  channel (world (system before)) = [("a1", 32401)] /\
  clock (world (system paused)) = 32401 /\
  pause_until (bot (system paused)) = Some 36001 /\
  pause_timer (bot (system paused)) = Some 36001 /\
  is_paused (bot (system paused)) (clock (world (system paused))) = true /\
  channel (world (system paused)) = [("a1", 32401)] /\
  pause_until (bot (system after)) = Some 36001 /\
  channel (world (system after))
  = [("a1", 32401); ("a2", 32581); ("a3", 32582)] /\
  map row_id (ledger (world (system after))) = ["a1"; "a2"; "a3"] /\
  forallb (fun delivered => is_paused (bot (system after)) (snd delivered))
          [("a2", 32581); ("a3", 32582)] = true /\
  is_paused (bot (system after)) (clock (world (system after))) = true /\
  results (system after) = [Completed 3] /\
  job after = None /\
  results (system held) = [SkippedPaused] /\
  channel (world (system held)) = [].
Proof.
  split.
  - intros ext p hours n paused later unpaused.
    apply (@loops_ignore_bot ext n paused p); reflexivity.
  - vm_compute. repeat split; reflexivity.
Qed.

(** C1, on the code.  One cycle with three fresh articles, each delivered
    in a second: the second is held back for the minimum interval, but it
    is recorded with the time sampled before the wait, and the third is
    measured against that time.  The recorded times of the first two lie
    1 second apart, and the second and third messages reach the channel
    1 second apart.  Two cycles with one article each publish 1 second
    apart: a cycle starts with no memory of the last publication. *)
Theorem spacing_not_kept :
  let one_cycle :=
    @run plain_externals fresh_system
         [Tick (cycle_of [["a1"; "a2"; "a3"]])] in
  let two_cycles :=
    @run plain_externals fresh_system
         [Tick (cycle_of [["a1"]]); Tick (cycle_of [["a2"]])] in
  results one_cycle = [Completed 3] /\
  timestamps (ledger (world one_cycle)) = [32400; 32401; 32581] /\
  channel (world one_cycle) = [("a1", 32401); ("a2", 32581); ("a3", 32582)] /\
  closer_than (MIN_PUBLICATION_INTERVAL * 60)
              (timestamps (ledger (world one_cycle))) = true /\
  closer_than (MIN_PUBLICATION_INTERVAL * 60)
              (map snd (channel (world one_cycle))) = true /\
  results two_cycles = [Completed 1; Completed 1] /\
  timestamps (ledger (world two_cycles)) = [32400; 32401] /\
  channel (world two_cycles) = [("a1", 32401); ("a2", 32402)].
Proof. vm_compute. repeat split; reflexivity. Qed.

(** What the loop does enforce: one cycle publishes at most
    [MAX_PUBLICATIONS_PER_HOUR] articles. *)
Lemma publish_loop_count articles : forall w published_count last ds,
  published_count <= MAX_PUBLICATIONS_PER_HOUR ->
  published_count <= snd (publish_loop w published_count last articles ds)
  <= MAX_PUBLICATIONS_PER_HOUR.
Proof.
  induction articles as [|a rest IH]; intros w n last ds Hn;
    cbn [publish_loop]; [cbn [snd]; lia|].
  destruct (MAX_PUBLICATIONS_PER_HOUR <=? n) eqn:E; [cbn [snd]; lia|].
  apply Z.leb_gt in E. cbv zeta.
  destruct (negb (is_article_published _ _)); [|apply IH; lia].
  destruct (publish_to_telegram _ _ _) as [w3 [m|]]; [|apply IH; lia].
  destruct (negb (m =? 0)); [|apply IH; lia].
  match goal with
  | |- _ <= snd (publish_loop ?w' _ ?l' _ _) <= _ =>
      specialize (IH w' (n + 1) l' (tl ds))
  end.
  lia.
Qed.

(** C2, on the code.  A cycle publishes twenty fresh articles and the
    next cycle a twenty-first, all within 31 minutes: the count that
    stops the loop starts at 0 in every cycle, and the ledger's own count
    of the last hour, 21, is not consulted. *)
Theorem hourly_cap_not_kept :
  let s :=
    @run plain_externals fresh_system
         [Tick (cycle_of [ten_ids; ten_more_ids]); Tick (cycle_of [["a21"]])] in
  results s = [Completed 20; Completed 1] /\
  get_publications_in_last_hour (ledger (world s)) (clock (world s)) = 21 /\
  MAX_PUBLICATIONS_PER_HOUR
  < get_publications_in_last_hour (ledger (world s)) (clock (world s)) /\
  List.length (channel (world s)) = 21%nat /\
  forallb (fun delivered => clock (world s) - 3600 <? snd delivered)
          (channel (world s)) = true /\
  clock (world s) - clock (world fresh_system) < 31 * 60.
Proof. vm_compute. repeat split; reflexivity. Qed.

(* ================================================================== *)
(** * Part IV: further properties of the code                          *)
(* ================================================================== *)

(** ** Lengths and prefixes *)

Lemma py_len_nonneg s : 0 <= py_len s.
Proof.
  induction s as [|c s IH]; simpl; [lia|].
  destruct (is_continuation c); lia.
Qed.

Lemma py_len_app a b : py_len (a ++ b) = py_len a + py_len b.
Proof.
  induction a as [|c a IH]; simpl; [reflexivity|]. rewrite IH. lia.
Qed.

Lemma py_take_len n : forall s, py_len (py_take n s) <= Z.of_nat n.
Proof.
  induction n as [|n IHn]; intros s.
  - induction s as [|c s IH]; simpl; [lia|].
    destruct (is_continuation c) eqn:E; simpl; [rewrite E; lia | lia].
  - induction s as [|c s IH]; [simpl; lia|].
    cbn [py_take]. destruct (is_continuation c) eqn:E; cbn [py_len]; rewrite E.
    + lia.
    + specialize (IHn s). lia.
Qed.

Lemma py_take_prefix n : forall s, is_prefix (py_take n s) s.
Proof.
  induction n as [|n IHn]; intros s.
  - induction s as [|c s IH]; simpl; [now exists EmptyString|].
    destruct (is_continuation c).
    + destruct IH as [rest H]. exists rest. simpl. now rewrite <- H.
    + now exists (String c s).
  - induction s as [|c s IH]; [now exists EmptyString|].
    cbn [py_take]. destruct (is_continuation c).
    + destruct IH as [rest H]. exists rest. simpl. now rewrite <- H.
    + destruct (IHn s) as [rest H]. exists rest. simpl. now rewrite <- H.
Qed.

Lemma before_last_space_prefix s : forall p,
  before_last_space s = Some p -> is_prefix p s.
Proof.
  induction s as [|c s IH]; intros p H; simpl in H; [discriminate|].
  destruct (before_last_space s) as [q|].
  - injection H as <-. destruct (IH q eq_refl) as [rest Hr].
    exists rest. simpl. now rewrite <- Hr.
  - destruct (Ascii.eqb c " "); [|discriminate].
    injection H as <-. now exists (String c s).
Qed.

Lemma prefix_len p s : is_prefix p s -> py_len p <= py_len s.
Proof.
  intros [rest ->]. rewrite py_len_app. pose proof (py_len_nonneg rest). lia.
Qed.

Lemma prefix_trans a b c : is_prefix a b -> is_prefix b c -> is_prefix a c.
Proof.
  intros [r1 ->] [r2 ->]. exists (r1 ++ r2).
  induction a as [|x a IH]; simpl; [reflexivity|]. now rewrite IH.
Qed.

Lemma truncate_summary_len summary max_length :
  py_len (truncate_summary summary max_length) <= Z.of_nat max_length + 3.
Proof.
  unfold truncate_summary.
  destruct (py_len summary <=? Z.of_nat max_length) eqn:E.
  - apply Z.leb_le in E. lia.
  - rewrite py_len_app.
    assert (py_len match before_last_space (py_take max_length summary) with
                   | Some p => p
                   | None => py_take max_length summary
                   end <= Z.of_nat max_length) as H.
    { pose proof (py_take_len max_length summary) as Ht.
      destruct (before_last_space (py_take max_length summary)) as [p|] eqn:B;
        [|exact Ht].
      pose proof (prefix_len _ _ (before_last_space_prefix _ _ B)). lia. }
    change (py_len "...") with 3. lia.
Qed.

(** X1.  [truncate_summary] never returns more than [max_length + 3] code
    points.  A text of at most [max_length] code points is returned as it
    is; a longer one is cut to an initial part of itself, of at most
    [max_length] code points, followed by three dots. *)
Theorem truncate_summary_bounded :
  forall (summary : string) (max_length : nat),
    py_len (truncate_summary summary max_length) <= Z.of_nat max_length + 3 /\
    (py_len summary <= Z.of_nat max_length ->
     truncate_summary summary max_length = summary) /\
    (Z.of_nat max_length < py_len summary ->
     exists kept,
       truncate_summary summary max_length = kept ++ "..." /\
       is_prefix kept summary /\ py_len kept <= Z.of_nat max_length).
Proof.
  intros summary n. unfold truncate_summary.
  destruct (py_len summary <=? Z.of_nat n) eqn:E.
  - apply Z.leb_le in E. repeat split; [lia | lia].
  - apply Z.leb_gt in E.
    set (cut := py_take n summary).
    set (kept := match before_last_space cut with
                 | Some p => p
                 | None => cut
                 end).
    assert (Hk : is_prefix kept cut).
    { subst kept. destruct (before_last_space cut) as [p|] eqn:B.
      - now apply before_last_space_prefix.
      - exists EmptyString. clear. induction cut as [|c s IH]; simpl;
          [reflexivity | now rewrite <- IH]. }
    assert (Hlen : py_len kept <= Z.of_nat n).
    { pose proof (prefix_len _ _ Hk). pose proof (py_take_len n summary).
      fold cut in H0. lia. }
    split; [rewrite py_len_app; simpl; lia|].
    split; [lia|]. intros _. exists kept.
    split; [reflexivity|]. split; [|exact Hlen].
    eapply prefix_trans; [exact Hk | apply py_take_prefix].
Qed.

(** ** Counting and occurrence *)

Lemma count_from_nonneg needle : forall hay k, 0 <= count_from needle k hay.
Proof.
  induction hay as [|c h IH]; intros k; cbn [count_from]; [lia|].
  destruct k as [|k]; [|apply IH].
  destruct (starts_with needle (String c h)); [|apply IH].
  specialize (IH (String.length needle - 1)%nat). lia.
Qed.

Lemma count_from_pos a n : forall hay,
  0 < count_from (String a n) 0 hay <-> contains (String a n) hay = true.
Proof.
  induction hay as [|c h IH].
  - simpl. split; [lia | discriminate].
  - change (contains (String a n) (String c h))
      with (starts_with (String a n) (String c h) || contains (String a n) h).
    cbn [count_from].
    destruct (starts_with (String a n) (String c h)).
    + pose proof (count_from_nonneg (String a n) h
                    (String.length (String a n) - 1)%nat).
      split; [reflexivity | lia].
    + rewrite orb_false_l. exact IH.
Qed.

(** [hay.count(needle)] is positive exactly when [needle in hay]. *)
Lemma py_count_pos hay needle :
  0 < py_count hay needle <-> contains needle hay = true.
Proof.
  destruct needle as [|a n].
  - simpl. pose proof (py_len_nonneg hay).
    split; [intros _; now destruct hay | lia].
  - apply count_from_pos.
Qed.

Lemma py_count_nonneg hay needle : 0 <= py_count hay needle.
Proof.
  destruct needle; simpl;
    [pose proof (py_len_nonneg hay); lia | apply count_from_nonneg].
Qed.

Lemma sum_Z_nonneg l : Forall (fun x => 0 <= x) l -> 0 <= sum_Z l.
Proof.
  induction 1 as [|x l Hx Hl IH]; unfold sum_Z in *; simpl; lia.
Qed.

Lemma sum_Z_pos l :
  Forall (fun x => 0 <= x) l -> (0 < sum_Z l <-> exists x, In x l /\ 0 < x).
Proof.
  induction 1 as [|x l Hx Hl IH]; unfold sum_Z; simpl.
  - split; [lia | intros [x [[] _]]].
  - pose proof (sum_Z_nonneg l Hl) as Hs. unfold sum_Z in *. split.
    + intros H. destruct (Z.eq_dec x 0) as [-> | Hne].
      * destruct (proj1 IH) as [y [Hy Hpos]]; [lia|]. exists y. tauto.
      * exists x. split; [now left | lia].
    + intros [y [[<- | Hy] Hpos]]; [lia|].
      assert (0 < fold_right Z.add 0 l) by (apply IH; now exists y). lia.
Qed.

(** ** Categories *)

Lemma max_by_count_spec rest : forall best,
  exists n, In (max_by_count best rest, n) (best :: rest) /\
            forall kv, In kv (best :: rest) -> snd kv <= n.
Proof.
  induction rest as [|kv rest IH]; intros best; cbn [max_by_count].
  - exists (snd best). split; [left; now destruct best|].
    intros kv [<- | []]. lia.
  - destruct (snd best <? snd kv) eqn:E.
    + apply Z.ltb_lt in E. destruct (IH kv) as [n [Hin Hmax]].
      exists n. split; [now right|].
      intros x [<- | Hx]; [|now apply Hmax].
      specialize (Hmax kv (or_introl eq_refl)). lia.
    + apply Z.ltb_ge in E. destruct (IH best) as [n [Hin Hmax]].
      exists n. split.
      * destruct Hin as [Hin | Hin]; [now left | right; now right].
      * intros x [<- | [<- | Hx]].
        -- apply Hmax. now left.
        -- specialize (Hmax best (or_introl eq_refl)). lia.
        -- apply Hmax. now right.
Qed.

Section CategoryFacts.
Context {ext : Externals}.

Lemma blocked_iff content :
  existsb (fun word => contains (lower word) (lower content))
          BLACKLIST_KEYWORDS = true <-> has_blocked_term content.
Proof.
  rewrite existsb_exists. unfold has_blocked_term.
  split; intros [w [Hin H]]; exists w; (split; [exact Hin|]);
    now apply contains_spec.
Qed.

Lemma category_scores_in content cat n :
  In (cat, n) (category_scores content) <->
  exists keywords,
    In (cat, keywords) category_keywords /\
    n = sum_Z (map (fun keyword => py_count content (lower keyword)) keywords).
Proof.
  unfold category_scores. rewrite in_map_iff. split.
  - intros [[c kws] [Heq Hin]]. simpl in Heq. injection Heq as <- <-.
    now exists kws.
  - intros [kws [Hin ->]]. now exists (cat, kws).
Qed.

Lemma category_score_pos content keywords :
  0 < sum_Z (map (fun keyword => py_count content (lower keyword)) keywords)
  <-> exists keyword, In keyword keywords /\
                      is_substring (lower keyword) content.
Proof.
  rewrite sum_Z_pos.
  - split.
    + intros [x [Hin Hpos]]. apply in_map_iff in Hin.
      destruct Hin as [kw [<- Hkw]]. exists kw. split; [exact Hkw|].
      apply contains_spec. now apply py_count_pos.
    + intros [kw [Hkw Hsub]]. exists (py_count content (lower kw)). split.
      * apply in_map_iff. now exists kw.
      * apply py_count_pos. now apply contains_spec.
  - apply Forall_forall. intros x Hin. apply in_map_iff in Hin.
    destruct Hin as [kw [<- _]]. apply py_count_nonneg.
Qed.

(** X2.  A category assigned by [categorize_article] is one of the
    configured categories; the text has no blocked term; one of the
    category's keywords occurs in the lowered text; and no category has
    more keyword occurrences than the assigned one. *)
Theorem assigned_category_is_best :
  forall (content c : string),
    categorize_article content = Some c ->
    ~ has_blocked_term content /\
    exists keywords n,
      In (c, keywords) category_keywords /\
      In (c, n) (category_scores (lower content)) /\
      0 < n /\
      (exists keyword, In keyword keywords /\
                       is_substring (lower keyword) (lower content)) /\
      forall kv, In kv (category_scores (lower content)) -> snd kv <= n.
Proof.
  intros content c H. unfold categorize_article in H.
  destruct (existsb _ BLACKLIST_KEYWORDS) eqn:B; [discriminate|].
  split.
  { intros Hb. apply blocked_iff in Hb. congruence. }
  destruct (existsb (fun kv : string * Z => negb (snd kv =? 0))
                    (category_scores (lower content))) eqn:N;
    [|discriminate].
  cbn [negb] in H.
  destruct (category_scores (lower content)) as [|kv rest] eqn:S;
    [discriminate|].
  injection H as <-.
  destruct (max_by_count_spec rest kv) as [n [Hin Hmax]].
  rewrite <- S in Hin.
  pose proof Hin as Hin'. apply category_scores_in in Hin'.
  destruct Hin' as [keywords [Hk Hn]].
  assert (Hpos : 0 < n).
  { apply existsb_exists in N. destruct N as [x [Hx Hnz]].
    apply negb_true_iff, Z.eqb_neq in Hnz.
    specialize (Hmax x Hx).
    assert (0 <= snd x).
    { rewrite <- S in Hx. destruct x as [xc xn].
      apply category_scores_in in Hx. destruct Hx as [kws [_ ->]].
      apply sum_Z_nonneg, Forall_forall. intros y Hy.
      apply in_map_iff in Hy. destruct Hy as [kw [<- _]].
      apply py_count_nonneg. }
    lia. }
  rewrite <- S. exists keywords, n.
  split; [exact Hk|]. split; [exact Hin|]. split; [exact Hpos|]. split.
  - rewrite Hn in Hpos. now apply category_score_pos.
  - intros x Hx. apply Hmax. now rewrite <- S.
Qed.

(** X3.  [categorize_article] assigns no category exactly when the text
    has a blocked term or no keyword of any category occurs in the
    lowered text. *)
Theorem uncategorized_iff :
  forall content : string,
    categorize_article content = None <->
    has_blocked_term content \/
    forall cat keywords keyword,
      In (cat, keywords) category_keywords -> In keyword keywords ->
      ~ is_substring (lower keyword) (lower content).
Proof.
  intros content. split.
  - intros H. unfold categorize_article in H.
    destruct (existsb _ BLACKLIST_KEYWORDS) eqn:B.
    { left. now apply blocked_iff. }
    right. intros cat keywords keyword Hc Hk Hsub.
    assert (Hin : In (cat, sum_Z (map (fun kw => py_count (lower content)
                                                          (lower kw))
                                      keywords))
                     (category_scores (lower content))).
    { apply category_scores_in. exists keywords.
      split; [exact Hc | reflexivity]. }
    assert (Hpos : 0 < sum_Z (map (fun kw => py_count (lower content)
                                                      (lower kw)) keywords)).
    { apply category_score_pos. exists keyword.
      split; [exact Hk | exact Hsub]. }
    destruct (existsb (fun kv : string * Z => negb (snd kv =? 0))
                      (category_scores (lower content))) eqn:N.
    + cbn [negb] in H.
      destruct (category_scores (lower content)); [destruct Hin | discriminate H].
    + assert (existsb (fun kv : string * Z => negb (snd kv =? 0))
                      (category_scores (lower content)) = true) as N'.
      { apply existsb_exists. eexists. split; [exact Hin|].
        apply negb_true_iff, Z.eqb_neq. cbn [snd]. lia. }
      rewrite N in N'. discriminate N'.
  - intros [Hb | Hnone].
    + now apply blocked_categorize.
    + apply unmatched_categorize. intros [cat n] Hin. cbn [snd].
      apply category_scores_in in Hin. destruct Hin as [keywords [Hc ->]].
      destruct (Z.eq_dec (sum_Z (map (fun keyword =>
                                        py_count (lower content)
                                                 (lower keyword))
                                     keywords)) 0) as [E | E]; [exact E|].
      exfalso.
      assert (0 <= sum_Z (map (fun keyword => py_count (lower content)
                                                       (lower keyword))
                              keywords)) as Hnn.
      { apply sum_Z_nonneg, Forall_forall. intros y Hy.
        apply in_map_iff in Hy. destruct Hy as [kw [<- _]].
        apply py_count_nonneg. }
      assert (Hpos : 0 < sum_Z (map (fun keyword =>
                                       py_count (lower content)
                                                (lower keyword))
                                    keywords)) by lia.
      apply category_score_pos in Hpos. destruct Hpos as [kw [Hk Hsub]].
      exact (Hnone cat keywords kw Hc Hk Hsub).
Qed.

End CategoryFacts.

Lemma assigned_category_is_best_witness :
  @categorize_article plain_externals "New robot a1" = Some "робототехника" /\
  ~ @has_blocked_term plain_externals "New robot a1".
Proof.
  assert (H : @categorize_article plain_externals "New robot a1"
              = Some "робототехника") by (vm_compute; reflexivity).
  split; [exact H|].
  exact (proj1 (@assigned_category_is_best plain_externals
                  "New robot a1" "робототехника" H)).
Defined.

(** ** The score and the threshold *)

Lemma priority_weight c :
  str_in c PRIORITY_CATEGORIES = true ->
  (1.7 <= weights_get category_weights c)%Q.
Proof.
  intros H. apply existsb_exists in H. destruct H as [k [Hin Heq]].
  apply String.eqb_eq in Heq. subst k.
  unfold PRIORITY_CATEGORIES in Hin. cbn [In] in Hin.
  repeat (destruct Hin as [Hin | Hin];
          [subst c; apply Qle_bool_iff; vm_compute; reflexivity|]).
  destruct Hin.
Qed.

Lemma other_weight c :
  str_in c PRIORITY_CATEGORIES = false ->
  (0 <= weights_get category_weights c <= 2.1)%Q.
Proof.
  intros H. unfold category_weights. cbn [weights_get].
  repeat match goal with
         | |- context [String.eqb ?k c] =>
             let E := fresh "E" in
             destruct (String.eqb k c) eqn:E;
             [ apply String.eqb_eq in E; subst c;
               first [ vm_compute in H; discriminate H
                     | split; apply Qle_bool_iff; vm_compute; reflexivity ]
             | ]
         end.
  split; apply Qle_bool_iff; vm_compute; reflexivity.
Qed.

Section ThresholdFacts.
Context {ext : Externals}.

Lemma signals_without_events events now article title summary :
  (forall text, -1 <= polarity_compound text <= 1)%Q ->
  get_today_events events now = [] ->
  (-0.1 <= additive_signals events now article title summary <= 1.1)%Q.
Proof.
  intros Hpol Hev. unfold additive_signals, event_bonus.
  rewrite Hev. cbn [fold_right].
  specialize (Hpol (title ++ " " ++ summary)).
  destruct ((now - a_pub_date article) / 86400 =? 0);
    destruct ((now - a_pub_date article) / 86400 <=? 2);
    destruct (existsb _ PRIORITY_SOURCES);
    destruct (1000 <? py_len (title ++ " " ++ summary));
    destruct (500 <? py_len (title ++ " " ++ summary));
    destruct (existsb _ _); lra.
Qed.

(** X4.  On a day without events, and with a sentiment between -1 and 1,
    an article reaches the minimum interest score exactly when the
    category it is assigned is one of the priority categories: the other
    signals can neither lift another category over the threshold nor pull
    a priority category under it. *)
Theorem threshold_is_priority_filter :
  forall (events : list EventRow) (now : Z) (article : Article)
         (title summary : string),
    (forall text, -1 <= polarity_compound text <= 1)%Q ->
    get_today_events events now = [] ->
    (Qle_bool MIN_INTEREST_SCORE
       (calculate_interest_score events now article title summary) = true
     <-> exists c, categorize_article (title ++ " " ++ summary) = Some c /\
                   str_in c PRIORITY_CATEGORIES = true).
Proof.
  intros events now article title summary Hpol Hev.
  rewrite Qle_bool_iff. unfold calculate_interest_score.
  destruct (categorize_article (title ++ " " ++ summary)) as [c|] eqn:Hcat.
  - rewrite (score_decomposition _ _ _ _ _ _ c Hcat).
    pose proof (signals_without_events events now article title summary
                  Hpol Hev) as Hs.
    unfold MIN_INTEREST_SCORE.
    destruct (str_in c PRIORITY_CATEGORIES) eqn:P.
    + pose proof (priority_weight c P). split; [|lra].
      intros _. now exists c.
    + pose proof (other_weight c P). split; [lra|].
      intros [c' [Hc' P']]. congruence.
  - rewrite (uncategorized_score _ _ _ _ _ _ Hcat). split.
    + intros H. exfalso. apply Qle_bool_iff in H. discriminate H.
    + intros [c [Hc _]]. discriminate Hc.
Qed.

Lemma relevant_events_bonus events now content :
  (event_bonus events now content
   == 0.5 * inject_Z (Z.of_nat (List.length
                                  (get_relevant_events events now content))))%Q.
Proof.
  unfold event_bonus, get_relevant_events.
  induction (get_today_events events now) as [|e l IH]; cbn [fold_right flat_map].
  - reflexivity.
  - destruct (existsb _ (split_comma (ev_keywords e))).
    + rewrite IH. cbn [app List.length]. rewrite Nat2Z.inj_succ.
      unfold Z.succ. rewrite inject_Z_plus. ring.
    + exact IH.
Qed.

(** X5.  The list returned by [get_relevant_events] for the text of a
    categorised article is what the score counts: with the events table,
    the score is the score without any event plus 0.5 for each relevant
    event of the day. *)
Theorem score_counts_relevant_events :
  forall (events : list EventRow) (now : Z) (article : Article)
         (title summary c : string),
    categorize_article (title ++ " " ++ summary) = Some c ->
    (calculate_interest_score events now article title summary
     == calculate_interest_score [] now article title summary
        + 0.5 * inject_Z (Z.of_nat (List.length
                  (get_relevant_events events now (title ++ " " ++ summary)))))%Q.
Proof.
  intros events now article title summary c Hcat.
  unfold calculate_interest_score.
  rewrite !(score_decomposition _ _ _ _ _ _ c Hcat).
  unfold additive_signals.
  rewrite (relevant_events_bonus events now).
  unfold event_bonus at 1. cbn [get_today_events filter fold_right].
  ring.
Qed.

End ThresholdFacts.

Lemma threshold_is_priority_filter_witness :
  (forall text, -1 <= @polarity_compound plain_externals text <= 1)%Q /\
  get_today_events [] 0 = [] /\
  (Qle_bool MIN_INTEREST_SCORE
     (@calculate_interest_score plain_externals [] 0 space_article
        "Space station gets a new module" "") = true
   <-> exists c,
        @categorize_article plain_externals
          ("Space station gets a new module" ++ " " ++ "") = Some c /\
        str_in c PRIORITY_CATEGORIES = true).
Proof.
  assert (Hpol : (forall text,
                     -1 <= @polarity_compound plain_externals text <= 1)%Q).
  { intros text. simpl. split; apply Qle_bool_iff; reflexivity. }
  split; [exact Hpol|]. split; [reflexivity|].
  exact (@threshold_is_priority_filter plain_externals [] 0 space_article
           "Space station gets a new module" "" Hpol eq_refl).
Defined.

Lemma score_counts_relevant_events_witness :
  @categorize_article plain_externals ("New robot a1" ++ " " ++ "")
  = Some "робототехника" /\
  (@calculate_interest_score plain_externals [robot_fair] 0
      (robot_article "a1") "New robot a1" ""
   == @calculate_interest_score plain_externals [] 0
        (robot_article "a1") "New robot a1" ""
      + 0.5 * inject_Z (Z.of_nat (List.length
                (@get_relevant_events plain_externals [robot_fair] 0
                   ("New robot a1" ++ " " ++ "")))))%Q.
Proof.
  assert (H : @categorize_article plain_externals ("New robot a1" ++ " " ++ "")
              = Some "робототехника") by (vm_compute; reflexivity).
  split; [exact H|].
  exact (@score_counts_relevant_events plain_externals [robot_fair] 0
           (robot_article "a1") "New robot a1" "" "робототехника" H).
Defined.

(** ** Event keywords *)

Lemma split_comma_plain k :
  contains "," k = false -> split_comma k = [k].
Proof.
  induction k as [|c k IH]; intros H; [reflexivity|].
  change (contains "," (String c k))
    with (starts_with "," (String c k) || contains "," k) in H.
  apply orb_false_iff in H. destruct H as [Hc Hk].
  cbn [split_comma]. cbn [starts_with] in Hc.
  rewrite andb_true_r in Hc.
  rewrite Ascii.eqb_sym in Hc. rewrite Hc. now rewrite (IH Hk).
Qed.

Lemma split_comma_cons k s :
  contains "," k = false ->
  split_comma (k ++ "," ++ s) = k :: split_comma s.
Proof.
  induction k as [|c k IH]; intros H.
  - simpl. reflexivity.
  - change (contains "," (String c k))
      with (starts_with "," (String c k) || contains "," k) in H.
    apply orb_false_iff in H. destruct H as [Hc Hk].
    cbn [starts_with] in Hc. rewrite andb_true_r, Ascii.eqb_sym in Hc.
    change ((String c k ++ "," ++ s)) with (String c (k ++ "," ++ s)).
    cbn [split_comma]. rewrite Hc, (IH Hk). reflexivity.
Qed.

Lemma split_join keywords :
  keywords <> [] ->
  Forall (fun k => contains "," k = false) keywords ->
  split_comma (join_comma keywords) = keywords.
Proof.
  induction keywords as [|k rest IH]; intros Hne Hall; [congruence|].
  inversion Hall as [|k' rest' Hk Hrest]; subst.
  destruct rest as [|k2 rest].
  - simpl. now apply split_comma_plain.
  - change (join_comma (k :: k2 :: rest))
      with (k ++ "," ++ join_comma (k2 :: rest)).
    rewrite (split_comma_cons _ _ Hk), IH;
      [reflexivity | discriminate | exact Hrest].
Qed.

(** X6.  The keywords of an event survive the table: [add_event] joins
    them with commas and the readers split the stored text at commas, which
    gives the list back whenever it is not empty and no keyword has a
    comma in it. *)
Theorem event_keywords_round_trip :
  forall (events : list EventRow) (rowid : Z) (name : string)
         (event_date : Z) (keywords : list string),
    keywords <> [] ->
    Forall (fun k => contains "," k = false) keywords ->
    map (fun e => split_comma (ev_keywords e))
        (add_event events rowid name event_date keywords)
    = (map (fun e => split_comma (ev_keywords e)) events ++ [keywords])%list.
Proof.
  intros events rowid name event_date keywords Hne Hall.
  unfold add_event. rewrite map_app. cbn [map ev_keywords].
  now rewrite split_join.
Qed.

Lemma event_keywords_round_trip_witness :
  ["robot"; "fair"] <> [] /\
  Forall (fun k => contains "," k = false) ["robot"; "fair"] /\
  map (fun e => split_comma (ev_keywords e))
      (add_event [] 1 "Robot fair" 0 ["robot"; "fair"])
  = (map (fun e => split_comma (ev_keywords e)) [] ++ [["robot"; "fair"]])%list.
Proof.
  assert (H1 : ["robot"; "fair"] <> []) by discriminate.
  assert (H2 : Forall (fun k => contains "," k = false) ["robot"; "fair"])
    by (repeat constructor).
  split; [exact H1|]. split; [exact H2|].
  exact (event_keywords_round_trip [] 1 "Robot fair" 0 ["robot"; "fair"] H1 H2).
Defined.

Section EventFacts.
Context {ext : Externals}.

Lemma today_events_app events extra now :
  get_today_events (events ++ extra) now
  = (get_today_events events now ++ get_today_events extra now)%list.
Proof. unfold get_today_events. apply filter_app. Qed.

(** X7.  An event added with an empty list of keywords is relevant to
    every text on its day: the stored empty text splits into one empty
    keyword, and the empty keyword occurs in everything.  (That [lower]
    maps the empty text to itself is all that is asked of it.) *)
Theorem event_without_keywords_matches_all :
  forall (events : list EventRow) (rowid : Z) (name : string) (now : Z)
         (article_content : string),
    lower "" = "" ->
    get_relevant_events (add_event events rowid name (now / 86400) []) now
                        article_content
    = (get_relevant_events events now article_content
       ++ [{| re_id := rowid; re_name := name; re_date := now / 86400;
              re_keywords := [""] |}])%list.
Proof.
  intros events rowid name now content Hlower.
  unfold get_relevant_events, add_event.
  rewrite today_events_app, flat_map_app. f_equal.
  unfold get_today_events. cbn [filter ev_date join_comma].
  rewrite Z.eqb_refl. cbn [flat_map ev_keywords split_comma existsb].
  rewrite Hlower.
  replace (contains "" (lower content)) with true
    by (now destruct (lower content)).
  reflexivity.
Qed.

End EventFacts.

Lemma event_without_keywords_matches_all_witness :
  @lower plain_externals "" = "" /\
  @get_relevant_events plain_externals
     (add_event [] 7 "Open day" (0 / 86400) []) 0 "Anything at all"
  = (@get_relevant_events plain_externals [] 0 "Anything at all"
     ++ [{| re_id := 7; re_name := "Open day"; re_date := 0 / 86400;
            re_keywords := [""] |}])%list.
Proof.
  split; [reflexivity|].
  exact (@event_without_keywords_matches_all plain_externals [] 7 "Open day" 0
           "Anything at all" eq_refl).
Defined.

(** ** More on the selector *)

Lemma processed_eqb_refl a : processed_eqb a a = true.
Proof.
  unfold processed_eqb.
  rewrite !String.eqb_refl, Z.eqb_refl, Bool.eqb_reflx.
  replace (Qeq_bool (interest_score a) (interest_score a)) with true
    by (symmetry; apply Qeq_bool_iff; reflexivity).
  destruct (category a) as [c|]; simpl; [now rewrite String.eqb_refl|];
    reflexivity.
Qed.

Lemma drawn_NoDup {A} (picks pool : list A) :
  drawn_without_replacement picks pool -> NoDup pool -> NoDup picks.
Proof.
  intros [rest Hperm] Hnd.
  apply (Permutation_NoDup (Permutation_sym Hperm)) in Hnd.
  now apply NoDup_app_remove_r in Hnd.
Qed.

Lemma drawn_incl {A} (picks pool : list A) :
  drawn_without_replacement picks pool -> incl picks pool.
Proof.
  intros [rest Hperm] a Hin. apply (Permutation_in a Hperm).
  apply in_or_app. now left.
Qed.

Lemma firstn_NoDup {A} (n : nat) (l : list A) : NoDup l -> NoDup (firstn n l).
Proof.
  intros H. rewrite <- (firstn_skipn n l) in H.
  now apply NoDup_app_remove_r in H.
Qed.

(** X8.  The selector never returns an article twice: when the articles
    given to it are all different, so are the articles it returns. *)
Theorem selection_has_no_repeats :
  forall (articles : list ProcessedArticle) (num_to_select : nat)
         (draws : list nat),
    NoDup articles ->
    NoDup (select_interesting_articles articles num_to_select draws).
Proof.
  intros articles n draws Hnd.
  destruct (selection_facts articles n draws) as [Hperm [picks [Hsel Hdrawn]]].
  rewrite Hsel.
  assert (Hs : NoDup (sorted_desc articles))
    by exact (Permutation_NoDup (Permutation_sym Hperm) Hnd).
  apply NoDup_app.
  - now apply firstn_NoDup.
  - eapply drawn_NoDup; [exact Hdrawn|]. now apply NoDup_filter.
  - intros a Hq Hp. apply (drawn_incl _ _ Hdrawn) in Hp.
    apply filter_In in Hp. destruct Hp as [_ Hp].
    apply negb_true_iff in Hp.
    assert (existsb (processed_eqb a)
                    (firstn (top_count n) (sorted_desc articles)) = true) as E.
    { apply existsb_exists. exists a. split; [exact Hq|].
      apply processed_eqb_refl. }
    rewrite E in Hp. discriminate Hp.
Qed.

Lemma six_scored_NoDup : NoDup six_scored.
Proof.
  unfold six_scored.
  repeat (constructor;
          [simpl; intros H;
           repeat (destruct H as [H | H]; [discriminate H|]); exact H|]).
  constructor.
Qed.

Lemma selection_has_no_repeats_witness :
  NoDup six_scored /\
  NoDup (select_interesting_articles six_scored 5 [1; 1]%nat).
Proof.
  split; [exact six_scored_NoDup|].
  exact (selection_has_no_repeats six_scored 5 [1; 1]%nat six_scored_NoDup).
Defined.

Lemma filter_none {A} (f : A -> bool) (l : list A) :
  (forall a, In a l -> f a = false) -> filter f l = [].
Proof.
  induction l as [|x l IH]; intros H; simpl; [reflexivity|].
  rewrite (H x (or_introl eq_refl)). apply IH. intros a Ha. apply H. now right.
Qed.

Lemma filter_all {A} (f : A -> bool) (l : list A) :
  (forall a, In a l -> f a = true) -> filter f l = l.
Proof.
  induction l as [|x l IH]; intros H; simpl; [reflexivity|].
  rewrite (H x (or_introl eq_refl)). f_equal. apply IH.
  intros a Ha. apply H. now right.
Qed.

Lemma NoDup_app_disjoint {A} (l1 l2 : list A) (a : A) :
  NoDup (l1 ++ l2) -> In a l1 -> In a l2 -> False.
Proof.
  induction l1 as [|x l1 IH]; simpl; intros Hnd H1 H2; [exact H1|].
  inversion Hnd as [|y ys Hnotin Hrest]; subst.
  destruct H1 as [-> | H1].
  - apply Hnotin. apply in_or_app. now right.
  - now apply IH.
Qed.

(** With pairwise different articles, the articles that equal none of the
    first [k] of a list are the articles after the first [k]. *)
Lemma others_are_the_tail (s : list ProcessedArticle) (k : nat) :
  pairwise_distinct s ->
  filter (fun a => negb (existsb (processed_eqb a) (firstn k s))) s
  = skipn k s.
Proof.
  intros [Hnd Heq].
  set (f := fun a => negb (existsb (processed_eqb a) (firstn k s))).
  transitivity (filter f (firstn k s ++ skipn k s));
    [now rewrite firstn_skipn|].
  rewrite filter_app. subst f.
  rewrite filter_none, filter_all; [reflexivity| |].
  - intros a Ha. apply negb_true_iff.
    destruct (existsb (processed_eqb a) (firstn k s)) eqn:E; [|reflexivity].
    exfalso. apply existsb_exists in E. destruct E as [b [Hb Hab]].
    assert (a = b) as ->.
    { apply Heq; try assumption.
      - rewrite <- (firstn_skipn k s). apply in_or_app. now right.
      - rewrite <- (firstn_skipn k s). apply in_or_app. now left. }
    rewrite <- (firstn_skipn k s) in Hnd.
    exact (NoDup_app_disjoint _ _ b Hnd Hb Ha).
  - intros a Ha. apply negb_false_iff, existsb_exists.
    exists a. split; [exact Ha | apply processed_eqb_refl].
Qed.

Lemma drawn_all {A} (picks pool : list A) :
  drawn_without_replacement picks pool ->
  List.length picks = List.length pool -> Permutation picks pool.
Proof.
  intros [rest Hperm] Hlen.
  pose proof (Permutation_length Hperm) as Hl.
  rewrite length_app in Hl.
  destruct rest as [|x rest]; [|simpl in Hl; lia].
  now rewrite app_nil_r in Hperm.
Qed.

(** X9.  Asked for at least as many articles as there are, the selector
    returns them all, each once, when they are pairwise different. *)
Theorem selection_returns_all_when_few :
  forall (articles : list ProcessedArticle) (num_to_select : nat)
         (draws : list nat),
    pairwise_distinct articles ->
    (List.length articles <= num_to_select)%nat ->
    Permutation (select_interesting_articles articles num_to_select draws)
                articles.
Proof.
  intros articles n draws [Hnd Heq] Hlen.
  pose proof (sorted_desc_perm articles) as Hperm.
  assert (Hs : pairwise_distinct (sorted_desc articles)).
  { split.
    - exact (Permutation_NoDup (Permutation_sym Hperm) Hnd).
    - intros a b Ha Hb. apply Heq; eapply Permutation_in; eauto. }
  unfold select_interesting_articles.
  rewrite (others_are_the_tail _ (top_count n) Hs).
  set (s := sorted_desc articles) in *.
  set (k := top_count n).
  assert (Hsplit : Permutation (firstn k s ++ skipn k s) articles)
    by now rewrite firstn_skipn.
  eapply Permutation_trans; [|exact Hsplit].
  destruct (skipn k s) as [|o os] eqn:E; [now rewrite app_nil_r|].
  rewrite <- E.
  apply Permutation_app_head.
  assert (Hk : (List.length (skipn k s) <= n - k)%nat).
  { rewrite length_skipn. rewrite (Permutation_length Hperm). lia. }
  destruct (random_sample_spec
              (Nat.min (List.length (skipn k s)) (n - k)) (skipn k s) draws)
    as [Hl Hdrawn]; [lia|].
  apply drawn_all; [exact Hdrawn|]. rewrite Hl. lia.
Qed.

Lemma six_scored_distinct : pairwise_distinct six_scored.
Proof.
  split; [exact six_scored_NoDup|].
  intros a b Ha Hb. unfold six_scored in Ha, Hb. cbn [In] in Ha, Hb.
  repeat (destruct Ha as [Ha | Ha]; [subst a|]); try destruct Ha;
    repeat (destruct Hb as [Hb | Hb]; [subst b|]); try destruct Hb;
    intros H; first [reflexivity | vm_compute in H; discriminate H].
Qed.

Lemma selection_returns_all_when_few_witness :
  pairwise_distinct six_scored /\
  (List.length six_scored <= 8)%nat /\
  Permutation (select_interesting_articles six_scored 8 [3; 0; 1]%nat)
              six_scored.
Proof.
  assert (Hlen : (List.length six_scored <= 8)%nat) by (simpl; lia).
  split; [exact six_scored_distinct|]. split; [exact Hlen|].
  exact (selection_returns_all_when_few six_scored 8 [3; 0; 1]%nat
           six_scored_distinct Hlen).
Defined.

(** ** Reading the feeds *)

Lemma flat_map_short {A B} (f : A -> list B) (l : list A) :
  (forall a, (List.length (f a) <= 1)%nat) ->
  (List.length (flat_map f l) <= List.length l)%nat.
Proof.
  intros Hf. induction l as [|x l IH]; simpl; [lia|].
  rewrite length_app. specialize (Hf x). lia.
Qed.

Lemma fetch_feed_length l entries :
  (List.length (fetch_feed l entries) <= ARTICLES_PER_FEED)%nat.
Proof.
  unfold fetch_feed.
  etransitivity; [apply flat_map_short|apply firstn_le_length].
  intros [a|]; [|simpl; lia].
  destruct (negb (is_article_published l (a_id a))); simpl; lia.
Qed.

(** X10.  A cycle never takes more than [ARTICLES_PER_FEED] articles from
    one feed, so never more than that many times the number of feeds in
    all. *)
Theorem fetch_is_bounded :
  forall (l : list Row) (fetched : list (list (option Article))),
    Forall (fun entries =>
              (List.length (fetch_feed l entries) <= ARTICLES_PER_FEED)%nat)
           fetched /\
    (List.length (fetch_articles l fetched)
     <= ARTICLES_PER_FEED * List.length fetched)%nat.
Proof.
  intros l fetched. split.
  - apply Forall_forall. intros entries _. apply fetch_feed_length.
  - unfold fetch_articles. induction fetched as [|entries rest IH];
      [simpl; lia|].
    cbn [flat_map List.length]. rewrite length_app.
    pose proof (fetch_feed_length l entries). lia.
Qed.

Section ParsingFacts.
Context {ext : Externals}.

Lemma parse_entry_some now entry feed_url a :
  parse_entry now entry feed_url = Some a ->
  e_link entry = Some (a_link a) /\
  a_id a = match e_id entry with
           | Some i => i
           | None => a_link a
           end /\
  a_source a = feed_url /\
  now - a_pub_date a <= 7 * 86400 /\
  (e_published_parsed entry = None -> e_updated_parsed entry = None ->
   a_pub_date a = now).
Proof.
  unfold parse_entry. intros H.
  destruct (e_link entry) as [link|]; [|discriminate H].
  destruct (e_title entry) as [raw_title|]; [|discriminate H].
  destruct (7 * 86400 <? _) eqn:E; [discriminate H|].
  apply Z.ltb_ge in E. injection H as <-. cbn [a_link a_id a_source a_pub_date].
  repeat split; try assumption.
  intros -> ->. reflexivity.
Qed.

Example parse_entry_by_age :
  @parse_entry plain_externals 1000000 (entry_of "http://x/1" (Some 100)) "f"
  = None /\
  option_map a_pub_date
    (@parse_entry plain_externals 1000000 (entry_of "http://x/1" None) "f")
  = Some 1000000 /\
  option_map a_summary
    (@parse_entry plain_externals 1000000 (entry_of "http://x/1" None) "f")
  = Some "A  robot".
Proof. vm_compute. repeat split; reflexivity. Qed.

(** X11.  An entry becomes an article only if it has a link and a title
    and is at most 7 days old.  The article keeps the link, takes the
    entry's id or else the link as its identifier, names the feed as its
    source, and is dated now when the entry has no date.  So every article
    that [fetch_feed] returns for a feed is at most 7 days old, comes from
    that feed and is not in the ledger. *)
Theorem fetched_articles_are_fresh :
  forall (l : list Row) (now : Z) (feed_url : string)
         (entries : list FeedEntry),
    (forall entry,
        e_link entry = None \/ e_title entry = None ->
        parse_entry now entry feed_url = None) /\
    (forall entry a,
        parse_entry now entry feed_url = Some a ->
        e_link entry = Some (a_link a) /\
        a_id a = match e_id entry with
                 | Some i => i
                 | None => a_link a
                 end /\
        (e_published_parsed entry = None -> e_updated_parsed entry = None ->
         a_pub_date a = now)) /\
    Forall (fun a => now - a_pub_date a <= 7 * 86400 /\
                     a_source a = feed_url /\
                     is_article_published l (a_id a) = false)
           (fetch_feed_entries l now feed_url entries).
Proof.
  intros l now feed_url entries. split; [|split].
  - intros entry [H | H]; unfold parse_entry; rewrite H; [reflexivity|].
    now destruct (e_link entry).
  - intros entry a H.
    destruct (parse_entry_some _ _ _ _ H) as [H1 [H2 [_ [_ H5]]]]. tauto.
  - apply Forall_forall. intros a Hin. unfold fetch_feed_entries in Hin.
    pose proof (fetch_feed_unpublished l
                  (map (fun entry => parse_entry now entry feed_url) entries))
      as Hu.
    rewrite Forall_forall in Hu. specialize (Hu a Hin).
    unfold fetch_feed in Hin. apply in_flat_map in Hin.
    destruct Hin as [parsed [Hp Ha]].
    assert (In parsed (map (fun entry => parse_entry now entry feed_url)
                           entries)) as Hp'.
    { rewrite <- (firstn_skipn ARTICLES_PER_FEED
                    (map (fun entry => parse_entry now entry feed_url) entries)).
      apply in_or_app. now left. }
    apply in_map_iff in Hp'. destruct Hp' as [entry [Hparse _]].
    destruct parsed as [a'|]; [|destruct Ha].
    destruct (negb (is_article_published l (a_id a'))); [|destruct Ha].
    destruct Ha as [<- | []].
    destruct (parse_entry_some _ _ _ _ Hparse) as [_ [_ [H3 [H4 _]]]].
    repeat split; assumption.
Qed.

End ParsingFacts.

(** ** The best hours *)

Lemma insert_by_score_perm x l : Permutation (insert_by_score x l) (x :: l).
Proof.
  induction l as [|y l IH]; simpl; [reflexivity|].
  destruct (Qltb (snd x) (snd y)); [|reflexivity].
  rewrite IH. apply perm_swap.
Qed.

Lemma order_by_score_perm groups :
  Permutation (order_by_score_desc groups) groups.
Proof.
  induction groups as [|g l IH]; simpl; [reflexivity|].
  rewrite insert_by_score_perm. now constructor.
Qed.

Lemma insert_by_score_sorted x l :
  StronglySorted score_not_below l ->
  StronglySorted score_not_below (insert_by_score x l).
Proof.
  induction l as [|y l IH]; simpl; intros Hs.
  - repeat constructor.
  - inversion Hs as [|y' l' Hl Hy]; subst.
    destruct (Qltb (snd x) (snd y)) eqn:E.
    + constructor; [now apply IH|].
      apply (Permutation_Forall (Permutation_sym (insert_by_score_perm x l))).
      constructor; [|exact Hy].
      apply Qltb_lt in E. unfold score_not_below. now apply Qlt_le_weak.
    + assert (Hyx : (snd y <= snd x)%Q).
      { apply Qnot_lt_le. intros H. apply Qltb_lt in H. congruence. }
      constructor; [exact Hs|]. constructor; [exact Hyx|].
      eapply Forall_impl; [|exact Hy].
      intros z Hz. unfold score_not_below in *.
      now apply Qle_trans with (snd y).
Qed.

Lemma order_by_score_sorted groups :
  StronglySorted score_not_below (order_by_score_desc groups).
Proof.
  induction groups as [|g l IH]; simpl; [constructor|].
  now apply insert_by_score_sorted.
Qed.

Lemma sorted_head_tail {A} (R : A -> A -> Prop) (l1 l2 : list A) :
  StronglySorted R (l1 ++ l2) ->
  forall x y, In x l1 -> In y l2 -> R x y.
Proof.
  induction l1 as [|a l1 IH]; simpl; intros Hs x y Hx Hy; [destruct Hx|].
  inversion Hs as [|a' l' Hl Ha]; subst.
  destruct Hx as [<- | Hx].
  - rewrite Forall_forall in Ha. apply Ha. apply in_or_app. now right.
  - now apply IH.
Qed.

Lemma unique_key {A B} (l : list (A * B)) k v v' :
  NoDup (map fst l) -> In (k, v) l -> In (k, v') l -> v = v'.
Proof.
  induction l as [|[k0 v0] l IH]; simpl; intros Hnd H1 H2; [destruct H1|].
  inversion Hnd as [|x xs Hnotin Hrest]; subst.
  destruct H1 as [H1 | H1], H2 as [H2 | H2].
  - congruence.
  - injection H1 as -> ->. exfalso. apply Hnotin.
    apply in_map_iff. now exists (k, v').
  - injection H2 as -> ->. exfalso. apply Hnotin.
    apply in_map_iff. now exists (k, v).
  - now apply IH.
Qed.

Lemma hours_of_day_NoDup : NoDup (map Z.of_nat (seq 0 24)).
Proof.
  apply Finite.Injective_map_NoDup; [|apply seq_NoDup].
  intros x y. apply Nat2Z.inj.
Qed.

Lemma hourly_engagement_in post_stats now h avg :
  In (h, avg) (hourly_engagement post_stats now) ->
  0 <= h < 24 /\
  exists r, In r post_stats /\ is_recent now r /\
            hour_of (ps_post_time r) = h.
Proof.
  unfold hourly_engagement. intros Hin.
  apply in_flat_map in Hin. destruct Hin as [hour [Hh Hin]].
  destruct (filter (fun r => hour_of (ps_post_time r) =? hour) _)
    as [|r rows] eqn:F; [destruct Hin|].
  destruct Hin as [Heq | []]. injection Heq as -> _.
  split.
  - apply in_map_iff in Hh. destruct Hh as [n [<- Hn]].
    apply in_seq in Hn. lia.
  - assert (In r (r :: rows)) as Hr by now left.
    rewrite <- F in Hr. apply filter_In in Hr. destruct Hr as [Hr Hhour].
    apply filter_In in Hr. destruct Hr as [Hr Hrecent].
    exists r. split; [exact Hr|]. split.
    + unfold is_recent. now apply Z.leb_le.
    + now apply Z.eqb_eq.
Qed.

Lemma keyed_flat_map_NoDup {B} (f : Z -> list (Z * B)) (l : list Z) :
  (forall h kv, In kv (f h) -> fst kv = h) ->
  (forall h, (List.length (f h) <= 1)%nat) ->
  NoDup l -> NoDup (map fst (flat_map f l)).
Proof.
  intros Hkey Hone. induction 1 as [|h l Hnotin Hnd IH]; simpl; [constructor|].
  rewrite map_app. apply NoDup_app.
  - specialize (Hone h). destruct (f h) as [|kv [|kv' rest]]; simpl in *;
      [constructor | repeat constructor; intros [] | lia].
  - exact IH.
  - intros k Hk1 Hk2. apply in_map_iff in Hk1. destruct Hk1 as [kv [<- Hkv]].
    apply Hkey in Hkv. apply in_map_iff in Hk2.
    destruct Hk2 as [kv' [Heq Hkv']]. apply in_flat_map in Hkv'.
    destruct Hkv' as [h' [Hh' Hin']]. apply Hkey in Hin'.
    apply Hnotin. congruence.
Qed.

Lemma hourly_engagement_NoDup post_stats now :
  NoDup (map fst (hourly_engagement post_stats now)).
Proof.
  unfold hourly_engagement. apply keyed_flat_map_NoDup.
  - intros h kv Hin.
    destruct (filter (fun r => hour_of (ps_post_time r) =? h) _);
      [destruct Hin|]. destruct Hin as [<- | []]. reflexivity.
  - intros h. destruct (filter (fun r => hour_of (ps_post_time r) =? h) _);
      simpl; lia.
  - exact hours_of_day_NoDup.
Qed.

Lemma hourly_engagement_none post_stats now :
  (forall r, In r post_stats -> ~ is_recent now r) ->
  hourly_engagement post_stats now = [].
Proof.
  intros Hold. unfold hourly_engagement.
  rewrite (filter_none _ post_stats).
  - generalize (map Z.of_nat (seq 0 24)) as hours.
    induction hours as [|h hours IH]; simpl; [reflexivity | exact IH].
  - intros r Hr. apply Z.leb_gt. specialize (Hold r Hr).
    unfold is_recent in Hold. lia.
Qed.

Lemma optimal_hours_profile_nonempty post_stats now :
  exists h rest, analyze_optimal_publishing_time post_stats now = h :: rest.
Proof.
  unfold analyze_optimal_publishing_time.
  destruct (firstn 5 _) as [|x l]; [now eexists; eexists|].
  simpl. now eexists; eexists.
Qed.

Example optimal_hours_of_three_posts :
  hourly_engagement three_posts (20 * 3600) = [(10, 170 # 2); (14, 307 # 1)] /\
  analyze_optimal_publishing_time three_posts (20 * 3600) = [14; 10] /\
  analyze_optimal_publishing_time three_posts (40 * 86400)
  = [9; 12; 15; 18; 21].
Proof. vm_compute. repeat split; reflexivity. Qed.

(** X12.  [analyze_optimal_publishing_time] always returns a profile that
    is not empty, of at most five different hours of the day.  Without a
    post of the last 30 days it is the default profile.  Otherwise each
    hour of it has a post of the last 30 days, and no hour left out has a
    greater average engagement than an hour taken. *)
Theorem optimal_hours_are_the_best :
  forall (post_stats : list PostStat) (now : Z),
    let hours := analyze_optimal_publishing_time post_stats now in
    let groups := hourly_engagement post_stats now in
    hours <> [] /\
    (List.length hours <= 5)%nat /\
    NoDup hours /\
    Forall (fun h => 0 <= h < 24) hours /\
    ((forall r, In r post_stats -> ~ is_recent now r) ->
     hours = [9; 12; 15; 18; 21]) /\
    (groups <> [] ->
     (forall h, In h hours ->
                exists r, In r post_stats /\ is_recent now r /\
                          hour_of (ps_post_time r) = h) /\
     (forall h avg h' avg',
         In (h, avg) groups -> ~ In h hours ->
         In (h', avg') groups -> In h' hours ->
         (avg <= avg')%Q)).
Proof.
  intros post_stats now hours groups.
  pose proof (order_by_score_perm groups) as Hperm.
  pose proof (order_by_score_sorted groups) as Hsorted.
  pose proof (hourly_engagement_NoDup post_stats now) as Hkeys.
  fold groups in Hkeys.
  set (s := order_by_score_desc groups) in *.
  assert (Hskeys : NoDup (map fst s)).
  { eapply Permutation_NoDup; [|exact Hkeys].
    apply Permutation_map. now apply Permutation_sym. }
  assert (Hin_s : forall h, In h (map fst (firstn 5 s)) ->
                            exists avg, In (h, avg) groups /\
                                        In (h, avg) (firstn 5 s)).
  { intros h Hh. apply in_map_iff in Hh. destruct Hh as [[h0 avg] [Heq Hin]].
    simpl in Heq. subst h0. exists avg. split; [|exact Hin].
    apply (Permutation_in _ Hperm).
    rewrite <- (firstn_skipn 5 s). apply in_or_app. now left. }
  assert (Hcase : (firstn 5 s = [] /\ groups = [] /\
                   hours = [9; 12; 15; 18; 21]) \/
                  (groups <> [] /\ hours = map fst (firstn 5 s) /\
                   firstn 5 s <> [])).
  { unfold hours, analyze_optimal_publishing_time. fold groups. fold s.
    destruct (firstn 5 s) as [|x rest] eqn:E.
    - left. split; [reflexivity|]. split; [|reflexivity].
      destruct s as [|y s']; [|discriminate E].
      now apply Permutation_nil.
    - right. split; [|split; [reflexivity | discriminate]].
      intros Hg. rewrite Hg in Hperm.
      apply Permutation_sym, Permutation_nil in Hperm.
      rewrite Hperm in E. discriminate E. }
  destruct Hcase as [[Hf [Hg Hh]] | [Hg [Hh Hf]]].
  - rewrite Hh. split; [discriminate|]. split; [simpl; lia|].
    split; [repeat (constructor;
                    [simpl; intros H;
                     repeat (destruct H as [H | H]; [discriminate H|]);
                     exact H|]); constructor|].
    split; [repeat constructor; lia|]. split; [reflexivity|].
    intros Hne. now destruct Hne.
  - rewrite Hh. split.
    { destruct (firstn 5 s); [now destruct Hf | discriminate]. }
    split; [rewrite length_map; apply firstn_le_length|].
    split; [rewrite <- firstn_map; now apply firstn_NoDup|].
    split.
    { apply Forall_forall. intros h Hin.
      destruct (Hin_s h Hin) as [avg [Hgr _]].
      now destruct (hourly_engagement_in _ _ _ _ Hgr). }
    split.
    { intros Hold. exfalso. apply Hg. now apply hourly_engagement_none. }
    intros _. split.
    { intros h Hin. destruct (Hin_s h Hin) as [avg [Hgr _]].
      now destruct (hourly_engagement_in _ _ _ _ Hgr). }
    intros h avg h' avg' Hgr Hout Hgr' Hin'.
    assert (Hs1 : In (h, avg) s)
      by exact (Permutation_in _ (Permutation_sym Hperm) Hgr).
    assert (Hs2 : In (h', avg') s)
      by exact (Permutation_in _ (Permutation_sym Hperm) Hgr').
    assert (Htail : In (h, avg) (skipn 5 s)).
    { rewrite <- (firstn_skipn 5 s) in Hs1. apply in_app_or in Hs1.
      destruct Hs1 as [Hs1 | Hs1]; [|exact Hs1].
      exfalso. apply Hout. apply in_map_iff. now exists (h, avg). }
    assert (Hhead : In (h', avg') (firstn 5 s)).
    { destruct (Hin_s h' Hin') as [avg'' [Hgr'' Hfirst]].
      assert (avg'' = avg') as <-; [|exact Hfirst].
      eapply unique_key; [exact Hkeys | exact Hgr'' | exact Hgr']. }
    rewrite <- (firstn_skipn 5 s) in Hsorted.
    exact (sorted_head_tail _ _ _ Hsorted _ _ Hhead Htail).
Qed.

(** X13.  On the profile that [update_optimal_publishing_time] installs,
    [should_publish_now] always gives an answer: the list of hours is
    never empty, so its search for the nearest hour does not raise. *)
Theorem updated_profile_always_answers :
  forall (b : NewsBot) (post_stats : list PostStat) (now current_hour : Z)
         (draw : Q),
    exists answer,
      should_publish_now
        (optimal_publishing_hours
           (update_optimal_publishing_time b post_stats now))
        current_hour draw = Some answer.
Proof.
  intros b post_stats now current_hour draw.
  cbn [update_optimal_publishing_time optimal_publishing_hours].
  destruct (optimal_hours_profile_nonempty post_stats now) as [h [rest ->]].
  unfold should_publish_now.
  destruct (existsb _ _); eexists; reflexivity.
Qed.

Lemma py_max_ge a b : (b <= py_max a b)%Q /\ (a <= py_max a b)%Q.
Proof.
  unfold py_max. destruct (Qltb a b) eqn:E.
  - apply Qltb_lt in E. split; lra.
  - assert (~ (a < b)%Q) by (intros H; apply Qltb_lt in H; congruence).
    split; lra.
Qed.

(** X14.  Outside the hours of its profile the bot is neither silent nor
    eager: a draw below 0.05 always lets the cycle run, and a draw of 0.19
    or more never does. *)
Theorem off_peak_chance_is_bounded :
  forall (hours : list Z) (current_hour : Z) (draw : Q),
    hours <> [] ->
    ((draw < 0.05)%Q ->
     should_publish_now hours current_hour draw = Some true) /\
    (~ In current_hour hours -> (0.19 <= draw)%Q ->
     should_publish_now hours current_hour draw = Some false).
Proof.
  intros hours current_hour draw Hne.
  destruct hours as [|h rest]; [congruence|].
  unfold should_publish_now.
  destruct (existsb (Z.eqb current_hour) (h :: rest)) eqn:E.
  - split; [reflexivity|]. intros Hout. exfalso. apply Hout.
    apply existsb_exists in E. destruct E as [x [Hx Heq]].
    apply Z.eqb_eq in Heq. now subst.
  - set (d := Z.abs (min_by_distance current_hour h rest - current_hour)).
    set (chance := py_max (0.2 - inject_Z d * 0.01) 0.05).
    split.
    + intros Hdraw. f_equal. apply Qltb_lt.
      pose proof (py_max_ge (0.2 - inject_Z d * 0.01) 0.05) as [Hb _].
      fold chance in Hb. lra.
    + intros Hout Hdraw. f_equal.
      destruct (Qltb draw chance) eqn:L; [|reflexivity].
      apply Qltb_lt in L. exfalso.
      destruct (min_by_distance_spec current_hour rest h) as [Hin _].
      assert (Hd : 1 <= d).
      { subst d.
        assert (min_by_distance current_hour h rest <> current_hour)
          by (intros Heq; apply Hout; now rewrite <- Heq).
        lia. }
      assert (Hq : (1 <= inject_Z d)%Q).
      { change 1%Q with (inject_Z 1). now rewrite <- Zle_Qle. }
      unfold chance, py_max in L.
      destruct (Qltb (0.2 - inject_Z d * 0.01) 0.05); lra.
Qed.

Lemma off_peak_chance_is_bounded_witness :
  [9; 12; 15; 18; 21] <> [] /\
  (0.01 < 0.05)%Q /\
  should_publish_now [9; 12; 15; 18; 21] 3 0.01 = Some true.
Proof.
  assert (H : [9; 12; 15; 18; 21] <> []) by discriminate.
  assert (Hd : (0.01 < 0.05)%Q) by reflexivity.
  split; [exact H|]. split; [exact Hd|].
  exact (proj1 (off_peak_chance_is_bounded [9; 12; 15; 18; 21] 3 0.01 H) Hd).
Defined.

(** ** What every run of the bot keeps *)

Lemma is_published_add_mono l article_id title pub_date x :
  is_article_published l x = true ->
  is_article_published (add_published_article l article_id title pub_date) x
  = true.
Proof.
  unfold is_article_published, add_published_article. intros H.
  rewrite existsb_app. apply orb_true_iff.
  destruct (String.eqb article_id x) eqn:E.
  - right. simpl. now rewrite E.
  - left. apply existsb_exists in H. destruct H as [r [Hr Hx]].
    apply existsb_exists. exists r. split; [|exact Hx].
    apply filter_In. split; [exact Hr|].
    apply negb_true_iff. apply String.eqb_eq in Hx.
    destruct (String.eqb (row_id r) article_id) eqn:E'; [|reflexivity].
    apply String.eqb_eq in E'. rewrite <- E', Hx, String.eqb_refl in E.
    discriminate E.
Qed.

(** A property of the world that time, a delivery of an unpublished
    article and a record in the ledger keep is kept by the loop. *)
Lemma publish_loop_keeps (P : World -> Prop) :
  (forall w dt, P w -> P (advance w dt)) ->
  (forall w a d, P w -> is_article_published (ledger w) (p_id a) = false ->
                 P (fst (publish_to_telegram w a d))) ->
  (forall w article_id title t,
      P w -> P (set_ledger w (add_published_article (ledger w) article_id
                                                    title t))) ->
  forall articles w published_count last ds,
    P w -> P (fst (publish_loop w published_count last articles ds)).
Proof.
  intros Hadv Hpub Hrec.
  induction articles as [|a rest IH]; intros w n last ds Hw;
    cbn [publish_loop]; [exact Hw|].
  destruct (MAX_PUBLICATIONS_PER_HOUR <=? n); [exact Hw|].
  cbv zeta.
  set (d := hd no_delivery ds).
  set (w1 := advance w (pre_delay d)).
  assert (H1 : P w1) by now apply Hadv.
  set (w2 := match last with
             | Some l =>
                 if clock w1 - l <? MIN_PUBLICATION_INTERVAL * 60
                 then advance w1 (l + MIN_PUBLICATION_INTERVAL * 60 - clock w1)
                 else w1
             | None => w1
             end).
  assert (H2 : P w2).
  { subst w2. destruct last as [l|]; [|exact H1].
    destruct (clock w1 - l <? MIN_PUBLICATION_INTERVAL * 60);
      [now apply Hadv | exact H1]. }
  destruct (is_article_published (ledger w2) (p_id a)) eqn:E; cbn [negb].
  - now apply IH.
  - pose proof (Hpub w2 a d H2 E) as H3.
    destruct (publish_to_telegram w2 a d) as [w3 mid]. cbn [fst] in H3.
    destruct mid as [m|]; [|now apply IH].
    destruct (m =? 0); cbn [negb]; [now apply IH|].
    apply IH. now apply Hrec.
Qed.

Section InvariantFacts.
Context {ext : Externals}.

Lemma run_keeps (P : World -> Prop) :
  (forall w dt, P w -> P (advance w dt)) ->
  (forall w a d, P w -> is_article_published (ledger w) (p_id a) = false ->
                 P (fst (publish_to_telegram w a d))) ->
  (forall w article_id title t,
      P w -> P (set_ledger w (add_published_article (ledger w) article_id
                                                    title t))) ->
  forall cs s, P (world s) -> P (world (run s cs)).
Proof.
  intros Hadv Hpub Hrec.
  induction cs as [|c cs IH]; intros s Hs; [exact Hs|].
  change (run s (c :: cs)) with (run (step s c) cs). apply IH.
  destruct c as [i|h| | |dt]; cbn [step world]; try exact Hs;
    [|now apply Hadv].
  unfold run_scheduled_job.
  destruct (is_paused (bot s) (clock (world s))); cbn [world]; [exact Hs|].
  unfold process_and_publish.
  destruct (should_publish_now _ _ _) as [[|]|]; cbn [world]; try exact Hs.
  destruct (fetch_articles _ _); cbn [world]; [exact Hs|].
  destruct (interesting_articles _ _) as [|p ps] eqn:E; cbn [world];
    [exact Hs|].
  pose proof (publish_loop_keeps P Hadv Hpub Hrec (p :: ps) (world s) 0 None
                (deliveries i) Hs) as H.
  destruct (publish_loop (world s) 0 None (p :: ps) (deliveries i)) as [w' n].
  cbn [fst world] in *. exact H.
Qed.

(** X15.  The ledger never comes to hold two rows for one identifier,
    whatever the bot is made to do, however deliveries turn out. *)
Theorem ledger_ids_stay_unique :
  forall (s : System) (cs : list Command),
    NoDup (map row_id (ledger (world s))) ->
    NoDup (map row_id (ledger (world (run s cs)))).
Proof.
  intros s cs.
  apply (run_keeps (fun w => NoDup (map row_id (ledger w)))).
  - intros w dt H. exact H.
  - intros w a d H _. unfold publish_to_telegram.
    destruct (category a); [|exact H].
    destruct (send_result d); cbn [fst ledger advance]; [|exact H].
    now apply add_keeps_ids_unique.
  - intros w article_id title t H. cbn [set_ledger ledger].
    now apply add_keeps_ids_unique.
Qed.

(** X16.  No article is delivered to the channel twice, and every
    delivered article is recorded in the ledger: both hold after any
    sequence of cycles, pauses, resumes and waits, if they hold before. *)
Theorem no_article_is_delivered_twice :
  forall (s : System) (cs : list Command),
    consistent (world s) -> consistent (world (run s cs)).
Proof.
  intros s cs. apply (run_keeps consistent).
  - intros w dt H. exact H.
  - intros w a d [Hnd Hrec] Hnew. unfold publish_to_telegram.
    destruct (category a); [|now split].
    destruct (send_result d); cbn [fst]; [|now split].
    unfold consistent, delivered_ids.
    cbn [channel ledger advance]. rewrite map_app. cbn [map fst]. split.
    + apply NoDup_snoc; [exact Hnd|]. intros Hin.
      apply Hrec in Hin. rewrite Hin in Hnew. discriminate Hnew.
    + intros x Hx. apply in_app_or in Hx. destruct Hx as [Hx | [<- | []]].
      * apply is_published_add_mono. now apply Hrec.
      * apply is_published_after_add.
  - intros w article_id title t [Hnd Hrec].
    unfold consistent, delivered_ids. cbn [set_ledger channel ledger].
    split; [exact Hnd|]. intros x Hx.
    apply is_published_add_mono. now apply Hrec.
Qed.

End InvariantFacts.

Lemma ledger_ids_stay_unique_witness :
  NoDup (map row_id (ledger (world fresh_system))) /\
  NoDup (map row_id
           (ledger (world (@run plain_externals fresh_system
                             [Tick (cycle_of [["a1"; "a2"]]);
                              Tick (cycle_of [["a2"; "a3"]])])))).
Proof.
  assert (H : NoDup (map row_id (ledger (world fresh_system))))
    by constructor.
  split; [exact H|].
  exact (@ledger_ids_stay_unique plain_externals fresh_system
           [Tick (cycle_of [["a1"; "a2"]]); Tick (cycle_of [["a2"; "a3"]])] H).
Defined.

Lemma fresh_world_consistent : consistent (world fresh_system).
Proof. split; [constructor | intros x []]. Qed.

Lemma no_article_is_delivered_twice_witness :
  consistent (world fresh_system) /\
  consistent (world (@run plain_externals fresh_system
                       [Tick (cycle_of [["a1"; "a2"]]);
                        Tick (cycle_of [["a2"; "a3"]])])).
Proof.
  split; [exact fresh_world_consistent|].
  exact (@no_article_is_delivered_twice plain_externals fresh_system
           [Tick (cycle_of [["a1"; "a2"]]); Tick (cycle_of [["a2"; "a3"]])]
           fresh_world_consistent).
Defined.

(** ** The delay and the cap *)

Lemma dry_cycles_app rs rs' :
  dry_cycles (rs ++ rs') = dry_cycles rs + dry_cycles rs'.
Proof.
  unfold dry_cycles. rewrite filter_app, length_app. lia.
Qed.

Lemma dry_cycles_nonneg rs : 0 <= dry_cycles rs.
Proof. unfold dry_cycles. lia. Qed.

Section DelayFacts.
Context {ext : Externals}.

Lemma job_delay b w i :
  publication_delay (fst (fst (run_scheduled_job b w i)))
  = publication_delay b
    + PUBLICATION_DELAY_INCREASE
      * dry_cycles [snd (run_scheduled_job b w i)].
Proof.
  unfold run_scheduled_job, dry_cycles, PUBLICATION_DELAY_INCREASE.
  destruct (is_paused b (clock w)); [cbn; lia|].
  unfold process_and_publish.
  destruct (should_publish_now _ _ _) as [[|]|]; try (cbn; lia).
  destruct (fetch_articles _ _); [cbn; lia|].
  destruct (interesting_articles _ _) as [|p ps];
    [cbn; unfold PUBLICATION_DELAY_INCREASE; lia|].
  destruct (publish_loop _ _ _ _ _). cbn. lia.
Qed.

(** X17.  The publication delay only grows: after any sequence of
    commands it is the delay before plus [PUBLICATION_DELAY_INCREASE] for
    each cycle since then that found articles but none interesting enough;
    no other cycle and no command changes it. *)
Theorem delay_counts_dry_cycles :
  forall (s : System) (cs : list Command),
    exists new_results,
      results (run s cs) = (results s ++ new_results)%list /\
      publication_delay (bot (run s cs))
      = publication_delay (bot s)
        + PUBLICATION_DELAY_INCREASE * dry_cycles new_results /\
      publication_delay (bot s) <= publication_delay (bot (run s cs)).
Proof.
  intros s cs. revert s.
  assert (H : forall s, exists new_results,
               results (run s cs) = (results s ++ new_results)%list /\
               publication_delay (bot (run s cs))
               = publication_delay (bot s)
                 + PUBLICATION_DELAY_INCREASE * dry_cycles new_results).
  { induction cs as [|c cs IH]; intros s.
    - exists []. split; [now rewrite app_nil_r|]. cbn. lia.
    - change (run s (c :: cs)) with (run (step s c) cs).
      destruct (IH (step s c)) as [rs [Hr Hd]].
      destruct c as [i|h| | |dt];
        try (exists rs; split; [exact Hr | exact Hd]).
      2: { exists rs. split; [exact Hr|]. rewrite Hd. cbn [step bot].
           unfold timer_thread.
           destruct (pause_timer (bot s)) as [due|]; [|reflexivity].
           destruct (due <=? clock (world s)); reflexivity. }
      cbn [step] in *.
      pose proof (job_delay (bot s) (world s) i) as Hj.
      destruct (run_scheduled_job (bot s) (world s) i) as [[b w] r].
      cbn [fst snd bot results] in *.
      exists (r :: rs). split.
      + rewrite Hr, <- app_assoc. reflexivity.
      + rewrite Hd, Hj.
        change (r :: rs) with ([r] ++ rs)%list. rewrite dry_cycles_app. lia. }
  intros s. destruct (H s) as [rs [Hr Hd]]. exists rs.
  split; [exact Hr|]. split; [exact Hd|].
  pose proof (dry_cycles_nonneg rs). unfold PUBLICATION_DELAY_INCREASE in *.
  lia.
Qed.

(** X18.  A cycle that runs to its end has published, by its own count,
    between 0 and [MAX_PUBLICATIONS_PER_HOUR] articles. *)
Theorem cycle_count_is_capped :
  forall (b b' : NewsBot) (w w' : World) (i : CycleInput) (n : Z),
    run_scheduled_job b w i = (b', w', Completed n) ->
    0 <= n <= MAX_PUBLICATIONS_PER_HOUR.
Proof.
  intros b b' w w' i n. unfold run_scheduled_job.
  destruct (is_paused b (clock w)); [discriminate|].
  unfold process_and_publish.
  destruct (should_publish_now _ _ _) as [[|]|]; try discriminate.
  destruct (fetch_articles _ _); [discriminate|].
  destruct (interesting_articles _ _) as [|p ps]; [discriminate|].
  pose proof (publish_loop_count (p :: ps) w 0 None (deliveries i)) as H.
  destruct (publish_loop w 0 None (p :: ps) (deliveries i)) as [w2 n2].
  cbn [snd] in H. intros Heq. injection Heq as _ _ <-.
  apply H. unfold MAX_PUBLICATIONS_PER_HOUR. lia.
Qed.

End DelayFacts.

Lemma cycle_count_is_capped_witness :
  @run_scheduled_job plain_externals fresh_bot fresh_world
     (cycle_of [["a1"; "a2"; "a3"]])
  = (fst (fst (@run_scheduled_job plain_externals fresh_bot fresh_world
                 (cycle_of [["a1"; "a2"; "a3"]]))),
     snd (fst (@run_scheduled_job plain_externals fresh_bot fresh_world
                 (cycle_of [["a1"; "a2"; "a3"]]))),
     Completed 3) /\
  0 <= 3 <= MAX_PUBLICATIONS_PER_HOUR.
Proof.
  assert (H : @run_scheduled_job plain_externals fresh_bot fresh_world
                (cycle_of [["a1"; "a2"; "a3"]])
              = (fst (fst (@run_scheduled_job plain_externals fresh_bot
                             fresh_world (cycle_of [["a1"; "a2"; "a3"]]))),
                 snd (fst (@run_scheduled_job plain_externals fresh_bot
                             fresh_world (cycle_of [["a1"; "a2"; "a3"]]))),
                 Completed 3))
    by (vm_compute; reflexivity).
  split; [exact H|].
  exact (@cycle_count_is_capped plain_externals _ _ _ _ _ _ H).
Defined.

(** ** The ledger's figures *)

Lemma fold_max_spec rest : forall m0,
  let m := fold_left (fun m (r : Row) => Z.max m (row_pub_date r)) rest m0 in
  m0 <= m /\
  (forall r, In r rest -> row_pub_date r <= m) /\
  (m = m0 \/ exists r, In r rest /\ row_pub_date r = m).
Proof.
  induction rest as [|x rest IH]; intros m0; cbn [fold_left].
  - cbv zeta. split; [lia|]. split; [intros r []|]. now left.
  - specialize (IH (Z.max m0 (row_pub_date x))). cbv zeta in *.
    set (m := fold_left _ rest (Z.max m0 (row_pub_date x))) in *.
    destruct IH as [H1 [H2 H3]]. split; [lia|]. split.
    + intros r [<- | Hr]; [lia | now apply H2].
    + destruct H3 as [H3 | [r [Hr H3]]].
      * destruct (Z.max_spec m0 (row_pub_date x)) as [[_ E] | [_ E]];
          rewrite E in H3.
        -- right. exists x. split; [now left | now symmetry].
        -- now left.
      * right. exists r. split; [now right | exact H3].
Qed.

Lemma last_publication_spec l m :
  get_last_publication_time l = Some m <->
  (exists r, In r l /\ row_pub_date r = m) /\
  (forall r, In r l -> row_pub_date r <= m).
Proof.
  destruct l as [|x rest]; cbn [get_last_publication_time].
  - split; [discriminate | intros [[r [[] _]] _]].
  - destruct (fold_max_spec rest (row_pub_date x)) as [H1 [H2 H3]].
    cbv zeta in *.
    set (top := fold_left _ rest (row_pub_date x)) in *.
    split.
    + intros H. injection H as <-. split.
      * destruct H3 as [H3 | [r [Hr H3]]].
        -- exists x. split; [now left | now symmetry].
        -- exists r. split; [now right | exact H3].
      * intros r [<- | Hr]; [exact H1 | now apply H2].
    + intros [[r [Hr Hm]] Hmax]. f_equal.
      assert (top <= m).
      { destruct H3 as [H3 | [r' [Hr' H3]]].
        - rewrite H3. apply Hmax. now left.
        - rewrite <- H3. apply Hmax. now right. }
      assert (m <= top).
      { rewrite <- Hm. destruct Hr as [<- | Hr]; [exact H1 | now apply H2]. }
      lia.
Qed.

(** X19.  The two figures of the status report agree: the ledger counts
    at least one publication in the last hour exactly when its last
    publication time lies within the last hour. *)
Theorem status_figures_agree :
  forall (l : list Row) (now : Z),
    0 < get_publications_in_last_hour l now <->
    exists m, get_last_publication_time l = Some m /\ now - 3600 < m.
Proof.
  intros l now. unfold get_publications_in_last_hour. split.
  - intros H.
    destruct (filter (fun r => now - 3600 <? row_pub_date r) l)
      as [|r rest] eqn:F; [simpl in H; lia|].
    assert (In r (r :: rest)) as Hr by now left.
    rewrite <- F in Hr. apply filter_In in Hr. destruct Hr as [Hr Hlate].
    apply Z.ltb_lt in Hlate.
    destruct (get_last_publication_time l) as [m|] eqn:L.
    + exists m. split; [reflexivity|].
      apply last_publication_spec in L. destruct L as [_ Hmax].
      specialize (Hmax r Hr). lia.
    + destruct l; [destruct Hr | discriminate L].
  - intros [m [L Hm]]. apply last_publication_spec in L.
    destruct L as [[r [Hr Hrm]] _].
    assert (In r (filter (fun r => now - 3600 <? row_pub_date r) l)) as Hin.
    { apply filter_In. split; [exact Hr|]. apply Z.ltb_lt. lia. }
    destruct (filter (fun r => now - 3600 <? row_pub_date r) l);
      [destruct Hin | simpl; lia].
Qed.

(** X20.  After an article is recorded with a time that no row of the
    ledger exceeds, the last publication time is that time. *)
Theorem last_publication_after_record :
  forall (l : list Row) (article_id title : string) (pub_date : Z),
    (forall r, In r l -> row_pub_date r <= pub_date) ->
    get_last_publication_time
      (add_published_article l article_id title pub_date)
    = Some pub_date.
Proof.
  intros l article_id title pub_date Hmax.
  apply last_publication_spec. unfold add_published_article. split.
  - eexists. split; [apply in_or_app; right; now left | reflexivity].
  - intros r Hr. apply in_app_or in Hr. destruct Hr as [Hr | [<- | []]].
    + apply filter_In in Hr. apply Hmax. tauto.
    + cbn. lia.
Qed.

Lemma last_publication_after_record_witness :
  (forall r, In r [{| row_id := "a1"; row_title := "t"; row_pub_date := 5 |}]
             -> row_pub_date r <= 9) /\
  get_last_publication_time
    (add_published_article
       [{| row_id := "a1"; row_title := "t"; row_pub_date := 5 |}]
       "a2" "u" 9)
  = Some 9.
Proof.
  assert (H : forall r,
             In r [{| row_id := "a1"; row_title := "t"; row_pub_date := 5 |}]
             -> row_pub_date r <= 9).
  { intros r [<- | []]. simpl. lia. }
  split; [exact H|].
  exact (last_publication_after_record _ "a2" "u" 9 H).
Defined.

(** ** The wait of the loop *)

(** X21.  What the wait of the loop does keep: once the loop holds the
    time [last] of a publication, every message it sends from then on in
    the cycle is sent at least [MIN_PUBLICATION_INTERVAL] minutes after
    [last]. *)
Theorem wait_keeps_distance_from_last :
  forall (articles : list ProcessedArticle) (w : World)
         (published_count last : Z) (ds : list Delivery),
    last <= clock w ->
    exists added,
      channel (fst (publish_loop w published_count (Some last) articles ds))
      = (channel w ++ added)%list /\
      Forall (fun sent => last + MIN_PUBLICATION_INTERVAL * 60 <= snd sent)
             added.
Proof.
  induction articles as [|a rest IH]; intros w n last ds Hlast;
    cbn [publish_loop].
  - exists []. split; [now rewrite app_nil_r | constructor].
  - destruct (MAX_PUBLICATIONS_PER_HOUR <=? n).
    { exists []. split; [now rewrite app_nil_r | constructor]. }
    cbv zeta.
    set (d := hd no_delivery ds).
    set (w1 := advance w (pre_delay d)).
    assert (H1 : clock w <= clock w1) by apply advance_clock.
    set (w2 := if clock w1 - last <? MIN_PUBLICATION_INTERVAL * 60
               then advance w1 (last + MIN_PUBLICATION_INTERVAL * 60
                                - clock w1)
               else w1).
    assert (H2 : last + MIN_PUBLICATION_INTERVAL * 60 <= clock w2 /\
                 clock w1 <= clock w2 /\ channel w2 = channel w /\
                 ledger w2 = ledger w).
    { subst w2.
      destruct (clock w1 - last <? MIN_PUBLICATION_INTERVAL * 60) eqn:E.
      - apply Z.ltb_lt in E. cbn [advance clock channel ledger].
        repeat split; lia.
      - apply Z.ltb_ge in E. repeat split; lia. }
    destruct H2 as [Hw2 [H12 [Hch Hled]]].
    destruct (is_article_published (ledger w2) (p_id a)); cbn [negb].
    + destruct (IH w2 n last (tl ds)) as [added [Hc Hall]]; [lia|].
      exists added. split; [now rewrite Hc, Hch | exact Hall].
    + unfold publish_to_telegram.
      destruct (category a) as [c|].
      * destruct (send_result d) as [m|].
        -- set (w3 := {| clock := clock (advance w2 (latency d));
                        ledger := _; events := _; channel := _ |}).
           assert (Hc3 : clock w2 <= clock w3)
             by (subst w3; cbn [clock advance]; lia).
           assert (Hch3 : channel w3
                          = (channel w ++ [(p_id a, clock w3)])%list)
             by (subst w3; cbn [channel clock advance]; now rewrite Hch).
           destruct (m =? 0); cbn [negb].
           ++ destruct (IH w3 n last (tl ds)) as [added [Hc Hall]]; [lia|].
              exists ((p_id a, clock w3) :: added). split.
              ** rewrite Hc, Hch3, <- app_assoc. reflexivity.
              ** constructor; [cbn [snd]; lia | exact Hall].
           ++ destruct (IH (set_ledger w3
                              (add_published_article (ledger w3) (p_id a)
                                 (p_title a) (clock w1)))
                           (n + 1) (clock w1) (tl ds))
                as [added [Hc Hall]]; [cbn [set_ledger clock]; lia|].
              exists ((p_id a, clock w3) :: added). split.
              ** rewrite Hc. cbn [set_ledger channel].
                 rewrite Hch3, <- app_assoc. reflexivity.
              ** constructor; [cbn [snd]; lia|].
                 eapply Forall_impl; [|exact Hall].
                 intros sent Hs. cbv beta in Hs. lia.
        -- destruct (IH (advance w2 (latency d)) n last (tl ds))
             as [added [Hc Hall]];
             [pose proof (advance_clock w2 (latency d)); lia|].
           exists added. split; [|exact Hall].
           rewrite Hc. cbn [advance channel]. now rewrite Hch.
      * destruct (IH w2 n last (tl ds)) as [added [Hc Hall]]; [lia|].
        exists added. split; [now rewrite Hc, Hch | exact Hall].
Qed.

Lemma wait_keeps_distance_from_last_witness :
  32400 <= clock fresh_world /\
  exists added,
    channel (fst (publish_loop fresh_world 1 (Some 32400)
                    [scored "a" 9; scored "b" 8]
                    [ok_delivery 100; ok_delivery 101]))
    = (channel fresh_world ++ added)%list /\
    Forall (fun sent => 32400 + MIN_PUBLICATION_INTERVAL * 60 <= snd sent)
           added.
Proof.
  assert (H : 32400 <= clock fresh_world) by (vm_compute; discriminate).
  split; [exact H|].
  exact (wait_keeps_distance_from_last [scored "a" 9; scored "b" 8]
           fresh_world 1 32400 [ok_delivery 100; ok_delivery 101] H).
Defined.

(** ** The configured tables *)

Section TableFacts.
Context {ext : Externals}.

Lemma assigned_category_is_configured content c :
  categorize_article content = Some c ->
  In c (map fst category_keywords).
Proof.
  unfold categorize_article.
  destruct (existsb _ BLACKLIST_KEYWORDS); [discriminate|].
  destruct (existsb _ (category_scores (lower content))); [|discriminate].
  cbn [negb].
  destruct (category_scores (lower content)) as [|kv rest] eqn:S;
    [discriminate|].
  intros H. injection H as <-.
  destruct (max_by_count_spec rest kv) as [n [Hin _]].
  rewrite <- S in Hin. apply category_scores_in in Hin.
  destruct Hin as [keywords [Hk _]].
  apply in_map_iff. exists (max_by_count kv rest, keywords).
  split; [reflexivity | exact Hk].
Qed.

(** X22.  The two tables of categories do not match in one place.  Every
    category that an article can be assigned has a configured weight, of
    1.3 at least, except [связь_и_5g]: it has none, so its articles are
    scored from a base of 0; the weight 1.8 meant for it is filed under
    [5g], a category that no article is ever assigned. *)
Theorem category_tables_mismatch :
  (forall c keywords,
      In (c, keywords) category_keywords -> c <> "связь_и_5g" ->
      exists weight, In (c, weight) category_weights /\
                     weights_get category_weights c = weight /\
                     (1.3 <= weight)%Q) /\
  In "связь_и_5g" (map fst category_keywords) /\
  ~ In "связь_и_5g" (map fst category_weights) /\
  weights_get category_weights "связь_и_5g" = 0.0%Q /\
  weights_get category_weights "5g" = 1.8%Q /\
  (forall content, categorize_article content <> Some "5g").
Proof.
  split; [|split; [|split; [|split; [|split]]]].
  - intros c keywords Hin Hne. unfold category_keywords in Hin.
    cbn [In] in Hin.
    repeat (destruct Hin as [Hin | Hin];
            [injection Hin as <- _;
             first [ exfalso; apply Hne; reflexivity
                   | eexists; split;
                     [|split; [vm_compute; reflexivity
                              |apply Qle_bool_iff; vm_compute; reflexivity]];
                     unfold category_weights; cbn [In]; tauto ]
            |]).
    destruct Hin.
  - unfold category_keywords. cbn [map fst In]. tauto.
  - unfold category_weights. cbn [map fst In].
    intros H. repeat (destruct H as [H | H]; [discriminate H|]). exact H.
  - vm_compute. reflexivity.
  - vm_compute. reflexivity.
  - intros content H. apply assigned_category_is_configured in H.
    unfold category_keywords in H. cbn [map fst In] in H.
    repeat (destruct H as [H | H]; [discriminate H|]). exact H.
Qed.

End TableFacts.

(** ** A processed batch *)

Section BatchFacts.
Context {ext : Externals}.

(** X23.  [process_articles] returns one record for each article, in the
    order of the articles and under their identifiers, and no record has a
    summary of more than [SUMMARY_LENGTH + 3] code points. *)
Theorem processed_batch_shape :
  forall (events : list EventRow) (now : Z) (articles : list Article),
    map p_id (process_articles events now articles) = map a_id articles /\
    Forall (fun p => py_len (p_summary p) <= Z.of_nat SUMMARY_LENGTH + 3)
           (process_articles events now articles).
Proof.
  intros events now articles. split; [apply process_articles_map|].
  induction articles as [|a rest IH]; cbn [process_articles];
    [constructor|].
  unfold process_single_article at 1. cbv zeta.
  constructor; [|exact IH]. cbn [p_summary].
  apply truncate_summary_len.
Qed.

End BatchFacts.
